(** * GithubService: approval detection and meme posting

    A shallow embedding of [GithubService] (the NestJS service polled by
    [GithubController] every five minutes and once at start-up) and the
    properties of its approval test, organisation filter, review/event
    fallback, duplicate gate and error handling.

    Modelling conventions.
    - JavaScript strings are Rocq strings; [includes], [startsWith],
      [replace] and [split] follow the ECMAScript definitions for a string
      pattern.
    - An [async] method is a computation in the monad [M]: it reads and
      writes the service object, issues comment POSTs, and either returns
      or throws.  Every [axios] call takes its response from the [World].
    - [Promise.all] over a mapped array runs every element; the model runs
      them in array order.  The order in which concurrent branches reach
      the network is not modelled, only which requests are issued.
    - Response bodies have the shape of the TypeScript interfaces
      ([PullRequest], [Review], [Comment], [Event]); the two URL fields of
      a pull request may be missing, as the code itself checks.  Every
      review and event carries its user object: a review without one would
      make the approval test throw into the catch around the PR.
    - [logger] calls do not influence control flow and are left out.
    - [parseISO] of date-fns is a parameter: it yields the epoch
      milliseconds of a timestamp, or nothing for an Invalid Date. *)

From Stdlib Require Import String Ascii List ZArith Lia Bool.
Import ListNotations.
Local Open Scope string_scope.
Local Open Scope list_scope.

(** ** JavaScript string operations used by the service *)

Module Js.

(** [s.startsWith(pat)] *)
Definition startsWith (s pat : string) : bool := String.prefix pat s.

Fixpoint drop (n : nat) (s : string) : string :=
  match n, s with
  | O, _ => s
  | S n', String _ s' => drop n' s'
  | S _, EmptyString => EmptyString
  end.

(** [s.includes(pat)] *)
Fixpoint includes (s pat : string) : bool :=
  if String.prefix pat s then true
  else match s with
       | EmptyString => false
       | String _ s' => includes s' pat
       end.

(** [s.replace(pat, rep)] with a string pattern: the first occurrence
    only.  The service always passes the empty replacement. *)
Fixpoint replace (s pat rep : string) : string :=
  if String.prefix pat s then rep ++ drop (String.length pat) s
  else match s with
       | EmptyString => EmptyString
       | String c s' => String c (replace s' pat rep)
       end.

(** [s.split(sep)] with a one-character separator. *)
Fixpoint split (sep : ascii) (s : string) : list string :=
  match s with
  | EmptyString => [EmptyString]
  | String c s' =>
      if Ascii.eqb c sep then EmptyString :: split sep s'
      else match split sep s' with
           | h :: t => String c h :: t
           | [] => [String c EmptyString]
           end
  end.

(** Truthiness of an optional string: [undefined], [null] and the empty
    string are falsy. *)
Definition truthy (o : option string) : bool :=
  match o with
  | Some s => negb (String.eqb s "")
  | None => false
  end.

(** [arr.map((x, i) => f i x)] *)
Fixpoint mapi_from {A B : Type} (i : nat) (f : nat -> A -> B) (l : list A) : list B :=
  match l with
  | [] => []
  | x :: l' => f i x :: mapi_from (S i) f l'
  end.

Definition mapi {A B : Type} (f : nat -> A -> B) (l : list A) : list B :=
  mapi_from 0 f l.

End Js.

(** ** Data model (the interfaces at the top of the service file) *)

Record User := { login : string }.

Record PullRequest := {
  html_url : option string;
  repository_url : option string;
  number : Z
}.

Module Review.
Record t := { state : string; user : User; submitted_at : string }.
End Review.

Record Comment := { body : string }.

Module Event.
Record t := { event : string; state : string; actor : User; created_at : string }.
End Event.

(** What a rejected [axios] promise carries: [error.response?.status] and
    [error.message]. *)
Record Error := { response_status : option Z; message : string }.

Inductive Response (A : Type) : Type :=
| Resolved (data : A)
| Rejected (error : Error).
Arguments Resolved {A} data.
Arguments Rejected {A} error.

Definition NOT_FOUND : Z := 404.

(** A comment POST: [POST /repos/{repo}/issues/{number}/comments] with
    JSON body [{body}]. *)
Record CommentPost := {
  post_repo : string;
  post_number : Z;
  post_body : string
}.

(** The environment one polling cycle runs against: what each request
    of the service is answered with. *)
Record World := {
  (** [GET /search/issues?q=reviewed-by:...]: the [items] of the answer. *)
  search_issues : Response (list PullRequest);
  (** [GET /repos/{repo}/pulls?state=open&...], by repository. *)
  repo_pulls : string -> Response (list PullRequest);
  (** [GET {pullRequestUrl}/reviews], by pull request URL. *)
  pr_reviews : string -> Response (list Review.t);
  (** [GET /repos/{repo}/issues/{number}/events] *)
  issue_events : string -> Z -> Response (list Event.t);
  (** [GET /repos/{repo}/issues/{number}/comments] *)
  issue_comments : string -> Z -> Response (list Comment);
  (** [POST /repos/{repo}/issues/{number}/comments] *)
  post_comment : CommentPost -> Response unit;
  (** [Math.random()] drawn while processing the i-th candidate PR, as the
      numerator k of the double k * 2^-1074. *)
  math_random : nat -> Z;
  (** [new Date()] in epoch milliseconds. *)
  now : Z
}.

(** ** The service object *)

Record ProcessEnv := {
  GITHUB_NAME : option string;
  GITHUB_ORGS : option string
}.

Record GithubService := {
  username : option string;
  orgs : list string;
  approvedRepos : list string   (* a JS Set: insertion order, no duplicates *)
}.

Definition new_GithubService (env : ProcessEnv) : GithubService :=
  {| username := GITHUB_NAME env;
     orgs := match GITHUB_ORGS env with
             | Some s => Js.split "," s
             | None => []
             end;
     approvedRepos := [] |}.

(** [Set.prototype.add] *)
Definition set_add (x : string) (s : list string) : list string :=
  if existsb (String.eqb x) s then s else s ++ [x].

Definition with_approvedRepos (s : GithubService) (r : list string) : GithubService :=
  {| username := username s; orgs := orgs s; approvedRepos := r |}.

Definition memeUrls : list string := [
  "https://media.makeameme.org/created/pr-approved-seeing.jpg";
  "https://www.memecreator.org/static/images/memes/5595060.jpg";
  "https://media.makeameme.org/created/you-get-approved-a0fd4c37ee.jpg";
  "http://www.quickmeme.com/img/17/17960076ed8eb9b005747677c781d58cfe237f192c0f0e4e243cd73bd789b3fc.jpg";
  "https://i.imgflip.com/8qwq96.jpg";
  "https://www.meme-arsenal.com/memes/cba08ac9b63f603c1f30495a45967708.jpg";
  "https://media.makeameme.org/created/i-got-you-b6b9066329.jpg";
  "https://i.pinimg.com/564x/e0/b9/32/e0b932da2b84a6bc012af9b9a5774087.jpg"
].

Definition api_repos_prefix : string := "https://api.github.com/repos/".

(** ** The monad of async methods *)

Inductive Res (A : Type) : Type :=
| Ok (a : A)
| Throw (e : Error).
Arguments Ok {A} a.
Arguments Throw {A} e.

Record Run (A : Type) := mkRun {
  final : GithubService;
  issued : list CommentPost;
  outcome : Res A
}.
Arguments mkRun {A} final issued outcome.
Arguments final {A} r.
Arguments issued {A} r.
Arguments outcome {A} r.

Definition M (A : Type) : Type := GithubService -> Run A.

Definition ret {A} (a : A) : M A := fun s => mkRun s [] (Ok a).

Definition throw {A} (e : Error) : M A := fun s => mkRun s [] (Throw e).

Definition bind {A B} (m : M A) (k : A -> M B) : M B :=
  fun s =>
    let r := m s in
    match outcome r with
    | Ok a =>
        let r' := k a (final r) in
        mkRun (final r') (issued r ++ issued r') (outcome r')
    | Throw e => mkRun (final r) (issued r) (Throw e)
    end.

(** [try { m } catch (error) { h error }], and [promise.catch(h)]. *)
Definition try_catch {A} (m : M A) (h : Error -> M A) : M A :=
  fun s =>
    let r := m s in
    match outcome r with
    | Ok a => r
    | Throw e =>
        let r' := h e (final r) in
        mkRun (final r') (issued r ++ issued r') (outcome r')
    end.

Definition this : M GithubService := fun s => mkRun s [] (Ok s).

Definition set_this (s' : GithubService) : M unit := fun _ => mkRun s' [] (Ok tt).

(** [await axios.get(...)]: the response the world gives. *)
Definition await {A} (r : Response A) : M A :=
  match r with
  | Resolved d => ret d
  | Rejected e => throw e
  end.

(** [await axios.post(...)]: the request goes out, then the response. *)
Definition await_post (p : CommentPost) (r : Response unit) : M unit :=
  fun s => mkRun s [p] (match r with Resolved d => Ok d | Rejected e => Throw e end).

(** [Promise.all]: every promise runs to its end; the result is the array
    of results, or a rejection when one of them rejects.  Of several
    rejections the model reports the first in array order; JavaScript
    reports the earliest in time. *)
Fixpoint promise_all {A} (ms : list (M A)) : M (list A) :=
  match ms with
  | [] => ret []
  | m :: ms' =>
      fun s =>
        let r := m s in
        let rs := promise_all ms' (final r) in
        mkRun (final rs) (issued r ++ issued rs)
          (match outcome r, outcome rs with
           | Ok a, Ok l => Ok (a :: l)
           | Throw e, _ => Throw e
           | Ok _, Throw e => Throw e
           end)
  end.

Declare Scope async_scope.
Delimit Scope async_scope with async.
Notation "x <- m ;; k" := (bind m (fun x => k))
  (at level 61, m at next level, right associativity) : async_scope.
Notation "m ;;; k" := (bind m (fun _ => k))
  (at level 61, right associativity) : async_scope.
Local Open Scope async_scope.

(** ** The methods of the service *)

Section Service.

(** [parseISO] from date-fns: epoch milliseconds, [None] for Invalid Date. *)
Variable parseISO : string -> option Z.

(** [subMinutes(date, n)] *)
Definition subMinutes (date : Z) (n : Z) : Z := (date - n * 60000)%Z.

(** [isAfter(date, dateToCompare)]; an Invalid Date is after nothing. *)
Definition isAfter (date : option Z) (dateToCompare : Z) : bool :=
  match date with
  | Some t => (dateToCompare <? t)%Z
  | None => false
  end.

(** [x === this.username], where the field may be undefined. *)
Definition is_username (s : GithubService) (x : string) : bool :=
  match username s with
  | Some u => String.eqb x u
  | None => false
  end.

Definition repoFullName_of (repository_url : string) : string :=
  Js.replace repository_url api_repos_prefix "".

Definition trackApprovedRepositories (w : World) : M unit :=
  items <- await (search_issues w) ;;
  s <- this ;;
  set_this
    (with_approvedRepos s
       (fold_left
          (fun acc pr =>
             if Js.truthy (repository_url pr) then
               match repository_url pr with
               | Some u => set_add (repoFullName_of u) acc
               | None => acc
               end
             else acc)
          items (approvedRepos s))).

Definition getPullRequestsForRepos (w : World) (repoNames : list string)
  : M (list PullRequest) :=
  per_repo <- promise_all (map (fun repoFullName => await (repo_pulls w repoFullName)) repoNames) ;;
  ret (concat per_repo).

Definition getPullRequestReviews (w : World) (pullRequestUrl : option string)
  : M (list Review.t) :=
  if negb (Js.truthy pullRequestUrl) then ret []
  else
    match pullRequestUrl with
    | None => ret []
    | Some url =>
        try_catch
          (await (pr_reviews w url))
          (fun error =>
             if match response_status error with
                | Some st => (st =? NOT_FOUND)%Z
                | None => false
                end
             then ret []
             else ret [])
    end.

Definition review_of_event (e : Event.t) : Review.t :=
  {| Review.state := Event.state e;
     Review.user := Event.actor e;
     Review.submitted_at := Event.created_at e |}.

Definition getPullRequestEvents (w : World) (repoFullName : string) (pullNumber : Z)
  : M (list Review.t) :=
  try_catch
    (events <- await (issue_events w repoFullName pullNumber) ;;
     ret (map review_of_event
            (filter (fun e => String.eqb (Event.event e) "reviewed") events)))
    (fun _ => ret []).

Definition getPullRequestComments (w : World) (repoFullName : string) (pullNumber : Z)
  : M (list Comment) :=
  try_catch
    (await (issue_comments w repoFullName pullNumber))
    (fun _ => ret []).

(** [Math.floor(Math.random() * this.memeUrls.length)] for the double
    k * 2^-1074.  The catalogue has 8 = 2^3 entries, so the product is
    exact in binary floating point and its floor is the integer quotient.
    An index outside the array reads [undefined]. *)
Definition getRandomMeme (k : Z) : option string :=
  let randomIndex := (k * Z.of_nat (length memeUrls) / 2 ^ 1074)%Z in
  if (randomIndex <? 0)%Z then None
  else nth_error memeUrls (Z.to_nat randomIndex).

(** A template literal prints [undefined] for a missing value. *)
Definition template (o : option string) : string :=
  match o with
  | Some s => s
  | None => "undefined"
  end.

Definition meme_markdown (memeUrl : option string) : string :=
  "![Meme](" ++ template memeUrl ++ ")".

Definition addMemeComment (w : World) (repoFullName : string) (pullNumber : Z)
    (memeUrl : option string) : M unit :=
  let p := {| post_repo := repoFullName;
              post_number := pullNumber;
              post_body := meme_markdown memeUrl |} in
  try_catch (await_post p (post_comment w p)) (fun _ => ret tt).

(** The predicate of [reviews.find(...)]. *)
Definition isRecentApproval (s : GithubService) (fiveMinutesAgo : Z) (review : Review.t)
  : bool :=
  String.eqb (Review.state review) "APPROVED"
  && is_username s (login (Review.user review))
  && isAfter (parseISO (Review.submitted_at review)) fiveMinutesAgo.

(** [this.memeUrls.some(memeUrl => comments.some(c => c.body.includes(memeUrl)))] *)
Definition memeAlreadyPosted (comments : list Comment) : bool :=
  existsb (fun memeUrl => existsb (fun c => Js.includes (body c) memeUrl) comments)
    memeUrls.

(** The handler of the [.catch] chained after the reviews promise. *)
Definition reviews_catch (error : Error) : M (list Review.t) :=
  if match response_status error with
     | Some st => (st =? NOT_FOUND)%Z
     | None => false
     end
  then ret []
  else throw error.

(** [getPullRequestReviews(...).then(rev => rev.length === 0 ? events : rev)] *)
Definition reviews_then (w : World) (pr : PullRequest) (url : string)
  : M (list Review.t) :=
  rev <- getPullRequestReviews w (html_url pr) ;;
  if Nat.eqb (length rev) 0
  then getPullRequestEvents w (repoFullName_of url) (number pr)
  else ret rev.

Definition fetchReviews (w : World) (pr : PullRequest) (url : string)
  : M (list Review.t) :=
  try_catch (reviews_then w pr url) reviews_catch.

(** The callback of [repoPRs.map(async (pr) => ...)]. *)
Definition processPR (w : World) (fiveMinutesAgo : Z) (i : nat) (pr : PullRequest)
  : M unit :=
  if negb (Js.truthy (html_url pr)) || negb (Js.truthy (repository_url pr))
  then ret tt
  else
    match repository_url pr with
    | None => ret tt
    | Some url =>
        try_catch
          (reviews <- fetchReviews w pr url ;;
           s <- this ;;
           match find (isRecentApproval s fiveMinutesAgo) reviews with
           | None => ret tt
           | Some _ =>
               let repoFullName := repoFullName_of url in
               comments <- getPullRequestComments w repoFullName (number pr) ;;
               if memeAlreadyPosted comments then ret tt
               else
                 let memeUrl := getRandomMeme (math_random w i) in
                 addMemeComment w repoFullName (number pr) memeUrl
           end)
          (fun _ => ret tt)
    end.

(** [Array.from(this.approvedRepos).filter(r => this.orgs.some(org => r.startsWith(`${org}/`)))] *)
Definition passesOrgFilter (orgList : list string) (repoFullName : string) : bool :=
  existsb (fun org => Js.startsWith repoFullName (org ++ "/")) orgList.

Definition checkApprovedPRs (w : World) : M unit :=
  trackApprovedRepositories w ;;;
  s <- this ;;
  let allRepos := filter (passesOrgFilter (orgs s)) (approvedRepos s) in
  repoPRs <- getPullRequestsForRepos w allRepos ;;
  let fiveMinutesAgo := subMinutes (now w) 5 in
  promise_all (Js.mapi (processPR w fiveMinutesAgo) repoPRs) ;;;
  ret tt.

(** The controller: [onModuleInit] and then every cron tick run one cycle
    on the same injected service object; a cycle that throws leaves the
    object as it was at the throw. *)
Fixpoint run_cycles (ws : list World) (s : GithubService) : GithubService * list CommentPost :=
  match ws with
  | [] => (s, [])
  | w :: ws' =>
      let r := checkApprovedPRs w s in
      let '(s', ps) := run_cycles ws' (final r) in
      (s', issued r ++ ps)
  end.

End Service.

(** ** Auxiliary predicates of the statements *)

(** The string holds no slash: it is one segment of an owner/name
    identifier. *)
Fixpoint slash_free (s : string) : bool :=
  match s with
  | EmptyString => true
  | String c s' => negb (Ascii.eqb c "/") && slash_free s'
  end.

(** The computation returns [a], leaves the service object as it was and
    posts nothing. *)
Definition quiet {A} (m : M A) (a : A) : Prop :=
  forall s, m s = mkRun s [] (Ok a).

(** A double in the half-open unit interval, as the numerator of
    k * 2^-1074: what [Math.random()] may return. *)
Definition unit_interval (k : Z) : Prop := (0 <= k < 2 ^ 1074)%Z.

(** The world [w] with the comment POSTs answered by [f] instead. *)
Definition with_post_comment (w : World) (f : CommentPost -> Response unit) : World :=
  {| search_issues := search_issues w;
     repo_pulls := repo_pulls w;
     pr_reviews := pr_reviews w;
     issue_events := issue_events w;
     issue_comments := issue_comments w;
     post_comment := f;
     math_random := math_random w;
     now := now w |}.

(** The world [w] with the open-PR requests answered by [f] instead. *)
Definition with_repo_pulls (w : World) (f : string -> Response (list PullRequest)) : World :=
  {| search_issues := search_issues w;
     repo_pulls := f;
     pr_reviews := pr_reviews w;
     issue_events := issue_events w;
     issue_comments := issue_comments w;
     post_comment := post_comment w;
     math_random := math_random w;
     now := now w |}.

(** The repository identifiers one search response contributes: one per
    entry whose repository reference is present and not empty. *)
Definition derived_from (items : list PullRequest) (r : string) : Prop :=
  exists pr u, In pr items /\ repository_url pr = Some u /\ u <> "" /\ r = repoFullName_of u.

(** ** Sample data used to run the model on concrete inputs *)

Module Sample.

(** A [parseISO] that knows a handful of timestamps around noon of
    2024-05-01 (UTC) and calls every other string an Invalid Date. *)
Definition parseISO (s : string) : option Z :=
  match find (fun p => String.eqb (fst p) s)
          [ ("2024-05-01T11:59:00Z", 1714564740000%Z);
            ("2024-05-01T11:55:01Z", 1714564501000%Z);
            ("2024-05-01T11:55:00Z", 1714564500000%Z);
            ("2024-05-01T11:54:59Z", 1714564499000%Z);
            ("2024-05-01T11:40:00Z", 1714563600000%Z) ] with
  | Some p => Some (snd p)
  | None => None
  end.

Definition noon : Z := 1714564800000%Z.

Definition service : GithubService :=
  new_GithubService {| GITHUB_NAME := Some "alice"; GITHUB_ORGS := Some "orgA,orgB" |}.

Definition review (st who at_ : string) : Review.t :=
  {| Review.state := st; Review.user := {| login := who |}; Review.submitted_at := at_ |}.

Definition pr42 : PullRequest :=
  {| html_url := Some "https://github.com/orgA/repo1/pull/42";
     repository_url := Some "https://api.github.com/repos/orgA/repo1";
     number := 42 |}.

Definition closed_pr (repo_url : option string) (n : Z) : PullRequest :=
  {| html_url := Some "https://github.com/x/y/pull/1";
     repository_url := repo_url;
     number := n |}.

Definition not_found : Error :=
  {| response_status := Some 404%Z; message := "Request failed with status code 404" |}.

Definition server_error : Error :=
  {| response_status := Some 500%Z; message := "Request failed with status code 500" |}.

Definition network_error : Error :=
  {| response_status := None; message := "connect ECONNREFUSED" |}.

Definition reviewed_event (st who at_ : string) : Event.t :=
  {| Event.event := "reviewed"; Event.state := st;
     Event.actor := {| login := who |}; Event.created_at := at_ |}.

Definition labeled_event (who at_ : string) : Event.t :=
  {| Event.event := "labeled"; Event.state := "APPROVED";
     Event.actor := {| login := who |}; Event.created_at := at_ |}.

(** A cycle at noon: the search finds closed PRs of orgA/repo1 (twice), of
    other/repo9 and one entry without a repository reference; orgA/repo1
    has the open PR #42.  The answers of the reviews, events, comments and
    POST endpoints are the parameters. *)
Definition world (reviews : Response (list Review.t)) (events : Response (list Event.t))
    (comments : Response (list Comment)) (post : Response unit) : World :=
  {| search_issues :=
       Resolved [ closed_pr (Some "https://api.github.com/repos/orgA/repo1") 40;
                  closed_pr None 7;
                  closed_pr (Some "https://api.github.com/repos/other/repo9") 3;
                  closed_pr (Some "https://api.github.com/repos/orgA/repo1") 41 ];
     repo_pulls := fun r => if String.eqb r "orgA/repo1" then Resolved [pr42] else Resolved [];
     pr_reviews := fun _ => reviews;
     issue_events := fun _ _ => events;
     issue_comments := fun _ _ => comments;
     post_comment := fun _ => post;
     math_random := fun _ => (2 ^ 1073)%Z;
     now := noon |}.

Definition repo1_url : string := "https://api.github.com/repos/orgA/repo1".

Definition approval_event : Event.t :=
  reviewed_event "APPROVED" "alice" "2024-05-01T11:59:00Z".

Definition approval : Review.t := review "APPROVED" "alice" "2024-05-01T11:59:00Z".

(** PR #42 approved by alice one minute ago, no comments yet. *)
Definition world_approved : World :=
  world (Resolved [approval]) (Resolved []) (Resolved []) (Resolved tt).

(** The same, but the comment POST is answered with a 500. *)
Definition world_post_fails : World :=
  world (Resolved [approval]) (Resolved []) (Resolved []) (Rejected server_error).

(** The same, but a comment of the PR already shows a catalogue image. *)
Definition world_duplicate : World :=
  world (Resolved [approval]) (Resolved [])
    (Resolved [ {| body := "nice! ![Meme](https://i.imgflip.com/8qwq96.jpg)" |} ])
    (Resolved tt).

(** The reviews endpoint answers 404, or 500, or with an empty list; the
    approval is in the issue events. *)
Definition world_404 : World :=
  world (Rejected not_found) (Resolved [approval_event]) (Resolved []) (Resolved tt).

Definition world_500 : World :=
  world (Rejected server_error) (Resolved [approval_event]) (Resolved []) (Resolved tt).

Definition world_events : World :=
  world (Resolved [])
    (Resolved [labeled_event "alice" "2024-05-01T11:59:00Z"; approval_event])
    (Resolved []) (Resolved tt).

(** The pulls endpoint answers for orgA/repo1 only; every other repository
    gets a 500. *)
Definition world_pulls_fail : World :=
  {| search_issues := Resolved [];
     repo_pulls := fun r => if String.eqb r "orgA/repo1" then Resolved [pr42]
                            else Rejected server_error;
     pr_reviews := fun _ => Resolved [approval];
     issue_events := fun _ _ => Resolved [];
     issue_comments := fun _ _ => Resolved [];
     post_comment := fun _ => Resolved tt;
     math_random := fun _ => 0%Z;
     now := noon |}.

(** The search request itself is answered with a 500. *)
Definition world_search_fails : World :=
  {| search_issues := Rejected server_error;
     repo_pulls := fun _ => Resolved [pr42];
     pr_reviews := fun _ => Resolved [approval];
     issue_events := fun _ _ => Resolved [];
     issue_comments := fun _ _ => Resolved [];
     post_comment := fun _ => Resolved tt;
     math_random := fun _ => 0%Z;
     now := noon |}.

(** PR #42 carries a plain comment review by alice; her approval shows
    only among the issue events. *)
Definition world_commented : World :=
  world (Resolved [review "COMMENTED" "alice" "2024-05-01T11:59:00Z"])
    (Resolved [approval_event]) (Resolved []) (Resolved tt).

(** PR #42 has no reviews and its events request fails. *)
Definition world_events_fail : World :=
  world (Resolved []) (Rejected server_error) (Resolved []) (Resolved tt).

(** The cycle after the meme went out: the comments now show it. *)
Definition world_after_post : World :=
  world (Resolved [approval]) (Resolved [])
    (Resolved [ {| body := "![Meme](https://i.imgflip.com/8qwq96.jpg)" |} ])
    (Resolved tt).

(** A service started without GITHUB_ORGS. *)
Definition service_without_orgs : GithubService :=
  new_GithubService {| GITHUB_NAME := Some "alice"; GITHUB_ORGS := None |}.

(** A pulls endpoint that fails for every repository outside the
    configured organisations. *)
Definition pulls_failing_outside_orgs (r : string) : Response (list PullRequest) :=
  if passesOrgFilter (orgs service) r then repo_pulls world_approved r
  else Rejected server_error.

(** The POST that goes to PR #42 when [Math.random()] is 0.5. *)
Definition meme_post : CommentPost :=
  {| post_repo := "orgA/repo1";
     post_number := 42;
     post_body := "![Meme](https://i.imgflip.com/8qwq96.jpg)" |}.

(** The cycle thirty seconds before noon: PR #42 is approved and has no
    comment yet. *)
Definition world_earlier : World :=
  {| search_issues := search_issues world_approved;
     repo_pulls := repo_pulls world_approved;
     pr_reviews := fun _ => Resolved [approval];
     issue_events := fun _ _ => Resolved [];
     issue_comments := fun _ _ => Resolved [];
     post_comment := fun _ => Resolved tt;
     math_random := fun _ => (2 ^ 1073)%Z;
     now := (noon - 30000)%Z |}.

(** The cycle at noon, with the comments request answered by a 500. *)
Definition world_comments_fail : World :=
  world (Resolved [approval]) (Resolved []) (Rejected server_error) (Resolved tt).

(** The next cycle, five minutes later: the search now finds only a closed
    PR of orgB/tool, which has no open PR. *)
Definition next_world : World :=
  {| search_issues :=
       Resolved [ closed_pr (Some "https://api.github.com/repos/orgB/tool") 5 ];
     repo_pulls := fun _ => Resolved [];
     pr_reviews := fun _ => Resolved [];
     issue_events := fun _ _ => Resolved [];
     issue_comments := fun _ _ => Resolved [];
     post_comment := fun _ => Resolved tt;
     math_random := fun _ => 0%Z;
     now := (noon + 300000)%Z |}.

End Sample.

(** ** Strings: prefixes and the owner segment *)

Lemma prefix_cons (a b : ascii) (p s : string) :
  String.prefix (String a p) (String b s) = true <-> a = b /\ String.prefix p s = true.
Proof.
  simpl. destruct (ascii_dec a b) as [e | n].
  - split; [intros H; split; assumption | intros [_ H]; exact H].
  - split; [discriminate | intros [e _]; contradiction].
Qed.

Lemma prefix_owner_self (org x : string) :
  String.prefix (org ++ "/") (org ++ "/" ++ x) = true.
Proof.
  induction org as [| a org IH].
  - simpl. destruct x; reflexivity.
  - change (String.prefix (String a (org ++ "/")) (String a (org ++ "/" ++ x)) = true).
    apply prefix_cons. split; [reflexivity | exact IH].
Qed.

Lemma prefix_owner_split (org : string) :
  forall o x,
    slash_free org = true ->
    String.prefix (o ++ "/") (org ++ "/" ++ x) = true ->
    o = org \/ exists o', o = (org ++ "/" ++ o')%string /\ String.prefix (o' ++ "/") x = true.
Proof.
  induction org as [| a org IH]; intros o x Hfree Hp.
  - destruct o as [| c o'].
    + left; reflexivity.
    + right. change (String.prefix (String c (o' ++ "/")) (String "/" x) = true) in Hp.
      apply prefix_cons in Hp. destruct Hp as [-> Hp].
      exists o'. split; [reflexivity | exact Hp].
  - simpl in Hfree. apply andb_true_iff in Hfree. destruct Hfree as [Ha Hfree].
    apply negb_true_iff in Ha. apply Ascii.eqb_neq in Ha.
    destruct o as [| c o'].
    + change (String.prefix (String "/" "") (String a (org ++ "/" ++ x)) = true) in Hp.
      apply prefix_cons in Hp. destruct Hp as [e _]. symmetry in e. contradiction.
    + change (String.prefix (String c (o' ++ "/")) (String a (org ++ "/" ++ x)) = true) in Hp.
      apply prefix_cons in Hp. destruct Hp as [-> Hp].
      destruct (IH o' x Hfree Hp) as [-> | [o'' [-> Hp']]].
      * left; reflexivity.
      * right. exists o''. split; [reflexivity | exact Hp'].
Qed.

Lemma slash_free_prefix (s : string) :
  forall p, String.prefix p s = true -> slash_free s = true -> slash_free p = true.
Proof.
  induction s as [| b s IH]; intros p Hp Hs.
  - destruct p; [reflexivity | discriminate].
  - destruct p as [| a p]; [reflexivity |].
    apply prefix_cons in Hp. destruct Hp as [-> Hp].
    simpl in *. apply andb_true_iff in Hs. destruct Hs as [Hb Hs].
    rewrite Hb. simpl. apply IH; assumption.
Qed.

Lemma slash_free_app (a b : string) :
  slash_free (a ++ b) = slash_free a && slash_free b.
Proof.
  induction a as [| c a IH]; simpl; [reflexivity |].
  rewrite IH. apply andb_assoc.
Qed.

Lemma slash_free_with_slash (a b : string) : slash_free (a ++ "/" ++ b) = false.
Proof.
  rewrite slash_free_app. simpl. apply andb_false_r.
Qed.

(** ** Organisation filter *)

(** C4. A repository identifier [org/x], with [org] the segment before its
    first slash, passes the organisation filter exactly when [org] is an
    element of the configured list: the owner segment is matched exactly,
    not as a substring.  Identifiers are owner/name strings, so either the
    name carries no further slash or no configured organisation does. *)
Theorem passesOrgFilter_owner_exact (orgList : list string) (org x : string) :
  slash_free org = true ->
  slash_free x = true \/ Forall (fun o => slash_free o = true) orgList ->
  (passesOrgFilter orgList (org ++ "/" ++ x) = true <-> In org orgList).
Proof.
  intros Horg Hside. unfold passesOrgFilter. rewrite existsb_exists. split.
  - intros [o [Hin Hp]]. unfold Js.startsWith in Hp.
    destruct (prefix_owner_split org o x Horg Hp) as [-> | [o' [-> Hp']]].
    + exact Hin.
    + exfalso. destruct Hside as [Hx | Hall].
      * pose proof (slash_free_prefix x _ Hp' Hx) as Hbad.
        rewrite slash_free_app, andb_false_r in Hbad. discriminate.
      * rewrite Forall_forall in Hall. specialize (Hall _ Hin).
        rewrite slash_free_with_slash in Hall. discriminate.
  - intros Hin. exists org. split; [exact Hin |].
    unfold Js.startsWith. apply prefix_owner_self.
Qed.

Lemma passesOrgFilter_owner_exact_witness :
  (passesOrgFilter (orgs Sample.service) ("orgA" ++ "/" ++ "repo1") = true
   <-> In "orgA" (orgs Sample.service))
  /\ (passesOrgFilter (orgs Sample.service) ("orgAB" ++ "/" ++ "repo1") = true
      <-> In "orgAB" (orgs Sample.service)).
Proof.
  split.
  - apply (passesOrgFilter_owner_exact (orgs Sample.service) "orgA" "repo1").
    + reflexivity.
    + left; reflexivity.
  - apply (passesOrgFilter_owner_exact (orgs Sample.service) "orgAB" "repo1").
    + reflexivity.
    + left; reflexivity.
Defined.

(** ** Laws of the async monad *)

Lemma run_eta {A} (r : Run A) : mkRun (final r) (issued r) (outcome r) = r.
Proof. destruct r; reflexivity. Qed.

Lemma bind_quiet {A B} (m : M A) (a : A) (k : A -> M B) (s : GithubService) :
  quiet m a -> bind m k s = k a s.
Proof.
  intros Hq. unfold bind. rewrite (Hq s). simpl. apply run_eta.
Qed.

Lemma try_catch_ok {A} (m : M A) (h : Error -> M A) (s : GithubService) (a : A) :
  outcome (m s) = Ok a -> try_catch m h s = m s.
Proof.
  intros Ho. unfold try_catch. rewrite Ho. reflexivity.
Qed.

Lemma try_catch_quiet {A} (m : M A) (h : Error -> M A) (a : A) :
  quiet m a -> quiet (try_catch m h) a.
Proof.
  intros Hq s. rewrite (try_catch_ok m h s a); rewrite (Hq s); reflexivity.
Qed.

Lemma quiet_ret {A} (a : A) : quiet (ret a) a.
Proof. intros s; reflexivity. Qed.

Lemma quiet_bind {A B} (m : M A) (a : A) (k : A -> M B) (b : B) :
  quiet m a -> quiet (k a) b -> quiet (bind m k) b.
Proof.
  intros Hm Hk s. rewrite (bind_quiet m a k s Hm). apply Hk.
Qed.

Lemma quiet_inj {A} (m : M A) (a b : A) (s : GithubService) :
  quiet m a -> outcome (m s) = Ok b -> a = b.
Proof.
  intros Hq Ho. rewrite (Hq s) in Ho. simpl in Ho. congruence.
Qed.

(** ** Fetching reviews, events and comments *)

Lemma status_test_irrelevant (error : Error) :
  (if match response_status error with
      | Some st => (st =? NOT_FOUND)%Z
      | None => false
      end
   then @ret (list Review.t) [] else ret []) = ret [].
Proof.
  destruct (response_status error) as [st |]; [destruct (st =? NOT_FOUND)%Z |]; reflexivity.
Qed.

Lemma getPullRequestReviews_quiet (w : World) (u : option string) :
  exists l, quiet (getPullRequestReviews w u) l
            /\ (Js.truthy u = false -> l = [])
            /\ (forall url, u = Some url -> Js.truthy u = true ->
                match pr_reviews w url with
                | Resolved d => l = d
                | Rejected _ => l = []
                end).
Proof.
  unfold getPullRequestReviews. destruct (Js.truthy u) eqn:Ht; simpl.
  - destruct u as [url |]; [| discriminate Ht].
    destruct (pr_reviews w url) as [d | e] eqn:Hr.
    + exists d. split; [| split].
      * intros s. reflexivity.
      * discriminate.
      * intros url' Hu _. injection Hu as <-. rewrite Hr. reflexivity.
    + exists []. split; [| split].
      * intros s. unfold try_catch. simpl. rewrite status_test_irrelevant. reflexivity.
      * discriminate.
      * intros url' Hu _. injection Hu as <-. rewrite Hr. reflexivity.
  - exists []. split; [| split].
    + apply quiet_ret.
    + reflexivity.
    + discriminate.
Qed.

Lemma getPullRequestEvents_quiet (w : World) (repoFullName : string) (pullNumber : Z) :
  quiet (getPullRequestEvents w repoFullName pullNumber)
    match issue_events w repoFullName pullNumber with
    | Resolved events =>
        map review_of_event (filter (fun e => String.eqb (Event.event e) "reviewed") events)
    | Rejected _ => []
    end.
Proof.
  intros s. unfold getPullRequestEvents.
  destruct (issue_events w repoFullName pullNumber) as [events | e]; reflexivity.
Qed.

Lemma getPullRequestComments_quiet (w : World) (repoFullName : string) (pullNumber : Z) :
  quiet (getPullRequestComments w repoFullName pullNumber)
    match issue_comments w repoFullName pullNumber with
    | Resolved comments => comments
    | Rejected _ => []
    end.
Proof.
  intros s. unfold getPullRequestComments.
  destruct (issue_comments w repoFullName pullNumber) as [comments | e]; reflexivity.
Qed.

Lemma reviews_then_quiet (w : World) (pr : PullRequest) (url : string) :
  exists l, quiet (reviews_then w pr url) l.
Proof.
  destruct (getPullRequestReviews_quiet w (html_url pr)) as [rev [Hq _]].
  unfold reviews_then. destruct (Nat.eqb (length rev) 0) eqn:Hlen.
  - eexists. eapply quiet_bind; [exact Hq |]. rewrite Hlen.
    apply getPullRequestEvents_quiet.
  - exists rev. eapply quiet_bind; [exact Hq |]. rewrite Hlen. apply quiet_ret.
Qed.

Lemma fetchReviews_quiet (w : World) (pr : PullRequest) (url : string) :
  exists l, quiet (fetchReviews w pr url) l.
Proof.
  destruct (reviews_then_quiet w pr url) as [l Hq].
  exists l. apply try_catch_quiet. exact Hq.
Qed.

(** C6. A 404 from the reviews endpoint is "no reviews":
    [getPullRequestReviews] returns the empty list instead of throwing, and
    the processing of the PR goes on (with the issue events). *)
Theorem getPullRequestReviews_404_empty
    (w : World) (pr : PullRequest) (h url : string) (error : Error) (s : GithubService) :
  html_url pr = Some h ->
  Js.truthy (Some h) = true ->
  pr_reviews w h = Rejected error ->
  response_status error = Some NOT_FOUND ->
  getPullRequestReviews w (Some h) s = mkRun s [] (Ok [])
  /\ fetchReviews w pr url s = getPullRequestEvents w (repoFullName_of url) (number pr) s.
Proof.
  intros Hh Ht Hr Hst.
  assert (Hq : quiet (getPullRequestReviews w (Some h)) []).
  { destruct (getPullRequestReviews_quiet w (Some h)) as [l [Hq [_ Hl]]].
    specialize (Hl h eq_refl Ht). rewrite Hr in Hl. subst l. exact Hq. }
  split; [apply Hq |].
  unfold fetchReviews.
  assert (Hthen : reviews_then w pr url s
                  = getPullRequestEvents w (repoFullName_of url) (number pr) s).
  { unfold reviews_then. rewrite Hh. rewrite (bind_quiet _ [] _ s Hq). reflexivity. }
  rewrite (try_catch_ok _ _ s
             match issue_events w (repoFullName_of url) (number pr) with
             | Resolved events =>
                 map review_of_event
                   (filter (fun e => String.eqb (Event.event e) "reviewed") events)
             | Rejected _ => []
             end).
  - exact Hthen.
  - rewrite Hthen, getPullRequestEvents_quiet. reflexivity.
Qed.

Lemma getPullRequestReviews_404_empty_witness :
  getPullRequestReviews Sample.world_404 (html_url Sample.pr42) Sample.service
    = mkRun Sample.service [] (Ok [])
  /\ fetchReviews Sample.world_404 Sample.pr42 Sample.repo1_url Sample.service
     = getPullRequestEvents Sample.world_404 (repoFullName_of Sample.repo1_url)
         (number Sample.pr42) Sample.service.
Proof.
  apply (getPullRequestReviews_404_empty Sample.world_404 Sample.pr42
           "https://github.com/orgA/repo1/pull/42"
           Sample.repo1_url Sample.not_found Sample.service);
    reflexivity.
Defined.

(** C10. [getPullRequestReviews] is total and never throws: without a URL
    it returns the empty list, and on every rejected request, whatever its
    status, it returns the empty list.  So a failed reviews request sends
    the PR down the issue-events path, and the [.catch] chained after the
    reviews promise never runs: with any handler in its place the chain
    computes the same. *)
Theorem getPullRequestReviews_total (w : World) :
  (forall u s, exists l, getPullRequestReviews w u s = mkRun s [] (Ok l))
  /\ (forall u s, Js.truthy u = false ->
        getPullRequestReviews w u s = mkRun s [] (Ok []))
  /\ (forall url error s, pr_reviews w url = Rejected error ->
        getPullRequestReviews w (Some url) s = mkRun s [] (Ok []))
  /\ (forall pr h url error s,
        html_url pr = Some h -> pr_reviews w h = Rejected error ->
        fetchReviews w pr url s
        = getPullRequestEvents w (repoFullName_of url) (number pr) s)
  /\ (forall pr url s,
        (exists l, outcome (reviews_then w pr url s) = Ok l)
        /\ forall handler, try_catch (reviews_then w pr url) handler s
                           = reviews_then w pr url s).
Proof.
  assert (Hrej : forall url error, pr_reviews w url = Rejected error ->
                   quiet (getPullRequestReviews w (Some url)) []).
  { intros url error Hr.
    destruct (getPullRequestReviews_quiet w (Some url)) as [l [Hq [Hf Hl]]].
    destruct (Js.truthy (Some url)) eqn:Ht.
    - specialize (Hl url eq_refl eq_refl). rewrite Hr in Hl. subst l. exact Hq.
    - rewrite (Hf eq_refl) in Hq. exact Hq. }
  repeat split.
  - intros u s. destruct (getPullRequestReviews_quiet w u) as [l [Hq _]].
    exists l. apply Hq.
  - intros u s Ht. destruct (getPullRequestReviews_quiet w u) as [l [Hq [Hf _]]].
    rewrite (Hf Ht) in Hq. apply Hq.
  - intros url error s Hr. apply (Hrej url error Hr).
  - intros pr h url error s Hh Hr.
    assert (Hthen : reviews_then w pr url s
                    = getPullRequestEvents w (repoFullName_of url) (number pr) s).
    { unfold reviews_then. rewrite Hh.
      rewrite (bind_quiet _ [] _ s (Hrej h error Hr)). reflexivity. }
    unfold fetchReviews. rewrite <- Hthen.
    destruct (reviews_then_quiet w pr url) as [l Hq].
    apply (try_catch_ok _ _ s l). rewrite (Hq s). reflexivity.
  - destruct (reviews_then_quiet w pr url) as [l Hq].
    exists l. rewrite (Hq s). reflexivity.
  - intros handler. destruct (reviews_then_quiet w pr url) as [l Hq].
    apply (try_catch_ok _ _ s l). rewrite (Hq s). reflexivity.
Qed.

Lemma getPullRequestReviews_total_witness :
  getPullRequestReviews Sample.world_500 None Sample.service
    = mkRun Sample.service [] (Ok [])
  /\ getPullRequestReviews Sample.world_500 (html_url Sample.pr42) Sample.service
     = mkRun Sample.service [] (Ok [])
  /\ fetchReviews Sample.world_500 Sample.pr42 Sample.repo1_url Sample.service
     = getPullRequestEvents Sample.world_500 "orgA/repo1" 42%Z Sample.service.
Proof.
  destruct (getPullRequestReviews_total Sample.world_500)
    as [_ [Hmissing [Hrej [Hfall _]]]].
  split; [| split].
  - apply Hmissing. reflexivity.
  - apply (Hrej _ Sample.server_error). reflexivity.
  - apply (Hfall Sample.pr42 "https://github.com/orgA/repo1/pull/42"
             Sample.repo1_url Sample.server_error);
      reflexivity.
Defined.

(** C5. When the reviews fetch returns the empty list the checker fetches
    the issue events instead; the records it then tests are the events of
    type "reviewed", in order, each turned into a review record with the
    event's state, actor and creation time, every other event dropped.
    Such a record is the same value as a native review with these three
    fields, so the approval test cannot tell them apart. *)
Theorem events_fallback_synthesizes_reviews
    (w : World) (pr : PullRequest) (url : string) (s : GithubService)
    (events : list Event.t) :
  outcome (getPullRequestReviews w (html_url pr) s) = Ok [] ->
  issue_events w (repoFullName_of url) (number pr) = Resolved events ->
  fetchReviews w pr url s
  = mkRun s [] (Ok (map review_of_event
                      (filter (fun e => String.eqb (Event.event e) "reviewed") events)))
  /\ (forall r, In r (map review_of_event
                        (filter (fun e => String.eqb (Event.event e) "reviewed") events))
                <-> exists e, In e events /\ Event.event e = "reviewed"
                              /\ Review.state r = Event.state e
                              /\ Review.user r = Event.actor e
                              /\ Review.submitted_at r = Event.created_at e)
  /\ (forall e native,
        Review.state native = Event.state e ->
        Review.user native = Event.actor e ->
        Review.submitted_at native = Event.created_at e ->
        review_of_event e = native).
Proof.
  intros Hrev Hev. split; [| split].
  - destruct (getPullRequestReviews_quiet w (html_url pr)) as [l [Hq _]].
    pose proof (quiet_inj _ _ _ s Hq Hrev) as ->.
    assert (Hthen : quiet (reviews_then w pr url)
                      (map review_of_event
                         (filter (fun e => String.eqb (Event.event e) "reviewed") events))).
    { intros s'. unfold reviews_then. rewrite (bind_quiet _ [] _ s' Hq). simpl.
      rewrite getPullRequestEvents_quiet, Hev. reflexivity. }
    apply (try_catch_quiet _ reviews_catch _ Hthen).
  - intros r. rewrite in_map_iff. split.
    + intros [e [<- Hin]]. apply filter_In in Hin. destruct Hin as [Hin Hty].
      apply String.eqb_eq in Hty. exists e. repeat split; assumption.
    + intros [e [Hin [Hty [Hst [Hus Hat]]]]]. exists e. split.
      * destruct r as [st us at_]. simpl in *. subst. reflexivity.
      * apply filter_In. split; [exact Hin | apply String.eqb_eq; exact Hty].
  - intros e [st us at_] Hst Hus Hat. simpl in *. subst. reflexivity.
Qed.

Lemma events_fallback_synthesizes_reviews_witness :
  fetchReviews Sample.world_events Sample.pr42 Sample.repo1_url Sample.service
  = mkRun Sample.service [] (Ok [Sample.approval]).
Proof.
  apply (events_fallback_synthesizes_reviews Sample.world_events Sample.pr42
           Sample.repo1_url Sample.service
           [Sample.labeled_event "alice" "2024-05-01T11:59:00Z"; Sample.approval_event]);
    reflexivity.
Defined.

(** ** Fetching the open pull requests *)

Lemma promise_all_pulls (w : World) (repoNames : list string) (s : GithubService) :
  let r := promise_all (map (fun repoFullName => await (repo_pulls w repoFullName)) repoNames) s in
  final r = s /\ issued r = []
  /\ (forall lists,
        Forall2 (fun repo l => repo_pulls w repo = Resolved l) repoNames lists ->
        outcome r = Ok lists)
  /\ ((exists repo error, In repo repoNames /\ repo_pulls w repo = Rejected error) ->
      exists error, outcome r = Throw error).
Proof.
  induction repoNames as [| repo rest IH]; simpl.
  - repeat split.
    + intros lists H. inversion H. reflexivity.
    + intros [repo [error [[] _]]].
  - destruct IH as [IHf [IHi [IHok IHbad]]].
    assert (Hhead : final (await (repo_pulls w repo) s) = s
                    /\ issued (await (repo_pulls w repo) s) = []).
    { destruct (repo_pulls w repo); split; reflexivity. }
    destruct Hhead as [Hf Hi]. rewrite Hf, Hi, IHf, IHi. repeat split.
    + intros lists H. inversion H as [| repo' l rest' ls Hl Hrest]; subst.
      rewrite Hl. simpl. rewrite (IHok ls Hrest). reflexivity.
    + intros [repo' [error [[<- | Hin] Hrej]]].
      * rewrite Hrej. simpl. exists error. reflexivity.
      * destruct (IHbad (ex_intro _ repo' (ex_intro _ error (conj Hin Hrej))))
          as [error' Hthrow].
        rewrite Hthrow. destruct (repo_pulls w repo) as [d | e]; simpl.
        -- exists error'. reflexivity.
        -- exists e. reflexivity.
Qed.

(** C7. If the open-PRs request of any one repository fails,
    [getPullRequestsForRepos] as a whole throws, and a thrown call carries
    no list; when every request succeeds the result is the lists of the
    repositories appended in the order of the input. *)
Theorem getPullRequestsForRepos_all_or_nothing
    (w : World) (repoNames : list string) (s : GithubService) :
  ((exists repo error, In repo repoNames /\ repo_pulls w repo = Rejected error) ->
   exists error, getPullRequestsForRepos w repoNames s = mkRun s [] (Throw error))
  /\ (forall lists,
        Forall2 (fun repo l => repo_pulls w repo = Resolved l) repoNames lists ->
        getPullRequestsForRepos w repoNames s = mkRun s [] (Ok (concat lists))).
Proof.
  pose proof (promise_all_pulls w repoNames s) as H. cbv zeta in H.
  destruct H as [Hf [Hi [Hok Hbad]]].
  unfold getPullRequestsForRepos, bind. split.
  - intros Hfail. destruct (Hbad Hfail) as [error Hthrow].
    exists error. rewrite Hthrow, Hf, Hi. reflexivity.
  - intros lists Hall. rewrite (Hok lists Hall), Hf, Hi. reflexivity.
Qed.

Lemma getPullRequestsForRepos_all_or_nothing_witness :
  (exists error,
      getPullRequestsForRepos Sample.world_pulls_fail ["orgA/repo1"; "orgB/tool"]
        Sample.service
      = mkRun Sample.service [] (Throw error))
  /\ getPullRequestsForRepos Sample.world_approved ["orgB/tool"; "orgA/repo1"; "orgB/tool"]
       Sample.service
     = mkRun Sample.service [] (Ok (concat [[]; [Sample.pr42]; []])).
Proof.
  split.
  - apply (getPullRequestsForRepos_all_or_nothing Sample.world_pulls_fail
             ["orgA/repo1"; "orgB/tool"] Sample.service).
    exists "orgB/tool", Sample.server_error. split; [simpl; auto | reflexivity].
  - apply (getPullRequestsForRepos_all_or_nothing Sample.world_approved
             ["orgB/tool"; "orgA/repo1"; "orgB/tool"] Sample.service).
    repeat constructor.
Defined.

(** ** Substrings *)

Lemma prefix_spec (s : string) :
  forall p, String.prefix p s = true <-> exists b, s = (p ++ b)%string.
Proof.
  induction s as [| c s IH]; intros p.
  - destruct p as [| a p]; simpl.
    + split; [intros _; exists ""; reflexivity | reflexivity].
    + split; [discriminate | intros [b Hb]; discriminate Hb].
  - destruct p as [| a p].
    + split; [intros _; exists (String c s); reflexivity | reflexivity].
    + rewrite prefix_cons, IH. split.
      * intros [-> [b ->]]. exists b. reflexivity.
      * intros [b Hb]. simpl in Hb. injection Hb as -> ->.
        split; [reflexivity | exists b; reflexivity].
Qed.

Lemma includes_spec (s : string) :
  forall pat, Js.includes s pat = true <-> exists a b, s = (a ++ pat ++ b)%string.
Proof.
  induction s as [| c s IH]; intros pat.
  - simpl. destruct pat as [| x pat]; simpl.
    + split; [intros _; exists "", ""; reflexivity | reflexivity].
    + split; [discriminate |].
      intros [a [b H]]. destruct a; discriminate H.
  - cbn [Js.includes]. destruct (String.prefix pat (String c s)) eqn:Hp.
    + split; [| reflexivity]. intros _.
      apply prefix_spec in Hp. destruct Hp as [b Hb]. exists "", b. exact Hb.
    + rewrite IH. split.
      * intros [a [b ->]]. exists (String c a), b. reflexivity.
      * intros [a [b H]]. destruct a as [| c' a].
        -- exfalso. assert (Hp' : String.prefix pat (String c s) = true).
           { apply prefix_spec. exists b. exact H. }
           rewrite Hp in Hp'. discriminate.
        -- simpl in H. injection H as -> ->. exists a, b. reflexivity.
Qed.

Lemma memeAlreadyPosted_false (comments : list Comment) :
  memeAlreadyPosted comments = false <->
  forall c u, In c comments -> In u memeUrls ->
              ~ exists a b, body c = (a ++ u ++ b)%string.
Proof.
  unfold memeAlreadyPosted. split.
  - intros H c u Hc Hu Hsub. apply includes_spec in Hsub.
    assert (Htrue : existsb
                      (fun memeUrl => existsb (fun c => Js.includes (body c) memeUrl) comments)
                      memeUrls = true).
    { apply existsb_exists. exists u. split; [exact Hu |].
      apply existsb_exists. exists c. split; assumption. }
    rewrite H in Htrue. discriminate.
  - intros H. apply not_true_is_false. intros Htrue.
    apply existsb_exists in Htrue. destruct Htrue as [u [Hu Hex]].
    apply existsb_exists in Hex. destruct Hex as [c [Hc Hinc]].
    apply (H c u Hc Hu). apply includes_spec. exact Hinc.
Qed.

(** ** Choosing and posting a meme *)

Lemma getRandomMeme_in_catalog (k : Z) :
  unit_interval k -> exists u, getRandomMeme k = Some u /\ In u memeUrls.
Proof.
  unfold unit_interval, getRandomMeme. intros [Hlo Hhi].
  change (Z.of_nat (length memeUrls)) with 8%Z.
  remember (2 ^ 1074)%Z as D eqn:HD.
  assert (HDpos : (0 < D)%Z) by (subst D; apply Z.pow_pos_nonneg; lia).
  assert (Hidx : (0 <= k * 8 / D < 8)%Z).
  { split.
    - apply Z.div_pos; lia.
    - apply Z.div_lt_upper_bound; lia. }
  destruct (k * 8 / D <? 0)%Z eqn:Hneg; [apply Z.ltb_lt in Hneg; lia |].
  destruct (nth_error memeUrls (Z.to_nat (k * 8 / D))) as [u |] eqn:Hnth.
  - exists u. split; [reflexivity | eapply nth_error_In; exact Hnth].
  - exfalso. apply nth_error_None in Hnth.
    change (length memeUrls) with 8%nat in Hnth. lia.
Qed.

Lemma addMemeComment_run (w : World) (repoFullName : string) (pullNumber : Z)
    (memeUrl : option string) (s : GithubService) :
  addMemeComment w repoFullName pullNumber memeUrl s
  = mkRun s [ {| post_repo := repoFullName;
                 post_number := pullNumber;
                 post_body := meme_markdown memeUrl |} ] (Ok tt).
Proof.
  unfold addMemeComment, try_catch, await_post. simpl.
  destruct (post_comment w _) as [[] | e]; reflexivity.
Qed.

Lemma bind_this {B} (k : GithubService -> M B) (s : GithubService) :
  bind this k s = k s s.
Proof. unfold bind, this. simpl. apply run_eta. Qed.

Lemma getPullRequestsForRepos_pure (w : World) (repoNames : list string) (s : GithubService) :
  getPullRequestsForRepos w repoNames s
  = mkRun s [] (outcome (getPullRequestsForRepos w repoNames s)).
Proof.
  pose proof (promise_all_pulls w repoNames s) as H. cbv zeta in H.
  destruct H as [Hf [Hi _]].
  unfold getPullRequestsForRepos, bind.
  destruct (outcome (promise_all _ s)); simpl; rewrite Hf, Hi; reflexivity.
Qed.

(** ** The approved-repository set *)

Lemma truthy_Some (u : string) : Js.truthy (Some u) = true <-> u <> "".
Proof.
  unfold Js.truthy. rewrite negb_true_iff. apply String.eqb_neq.
Qed.

Lemma set_add_In (x r : string) (s : list string) :
  In r (set_add x s) <-> In r s \/ r = x.
Proof.
  unfold set_add. destruct (existsb (String.eqb x) s) eqn:Hex.
  - apply existsb_exists in Hex. destruct Hex as [y [Hy Heq]].
    apply String.eqb_eq in Heq. subst y. split.
    + intros H; left; exact H.
    + intros [H | ->]; assumption.
  - rewrite in_app_iff. simpl. split.
    + intros [H | [<- | []]]; [left; exact H | right; reflexivity].
    + intros [H | ->]; [left; exact H | right; left; reflexivity].
Qed.

Lemma set_add_NoDup (x : string) (s : list string) :
  NoDup s -> NoDup (set_add x s).
Proof.
  intros Hnd. unfold set_add. destruct (existsb (String.eqb x) s) eqn:Hex.
  - exact Hnd.
  - apply NoDup_app; [exact Hnd | repeat constructor; intros [] |].
    intros y Hy [<- | []].
    assert (Htrue : existsb (String.eqb x) s = true).
    { apply existsb_exists. exists x. split; [exact Hy | apply String.eqb_refl]. }
    rewrite Hex in Htrue. discriminate.
Qed.

Lemma set_add_extends (x : string) (s : list string) :
  exists added, set_add x s = s ++ added.
Proof.
  unfold set_add. destruct (existsb (String.eqb x) s).
  - exists []. symmetry. apply app_nil_r.
  - exists [x]. reflexivity.
Qed.

Lemma derived_from_cons (pr : PullRequest) (items : list PullRequest) (r : string) :
  derived_from (pr :: items) r <->
  (exists u, repository_url pr = Some u /\ u <> "" /\ r = repoFullName_of u)
  \/ derived_from items r.
Proof.
  unfold derived_from. split.
  - intros [pr' [u [[<- | Hin] H]]].
    + left. exists u. exact H.
    + right. exists pr', u. split; assumption.
  - intros [[u H] | [pr' [u [Hin H]]]].
    + exists pr, u. split; [left; reflexivity | exact H].
    + exists pr', u. split; [right; exact Hin | exact H].
Qed.

Lemma track_fold (items : list PullRequest) :
  forall acc,
    let acc' :=
      fold_left
        (fun acc pr =>
           if Js.truthy (repository_url pr) then
             match repository_url pr with
             | Some u => set_add (repoFullName_of u) acc
             | None => acc
             end
           else acc)
        items acc in
    (forall r, In r acc' <-> In r acc \/ derived_from items r)
    /\ (NoDup acc -> NoDup acc')
    /\ exists added, acc' = acc ++ added.
Proof.
  induction items as [| pr items IH]; intros acc; cbn zeta.
  - simpl. split; [| split].
    + intros r. split; [intros H; left; exact H |].
      intros [H | [pr [u [[] _]]]]. exact H.
    + trivial.
    + exists []. symmetry. apply app_nil_r.
  - cbn [fold_left].
    destruct (repository_url pr) as [u |] eqn:Hu.
    + destruct (Js.truthy (Some u)) eqn:Ht.
      * specialize (IH (set_add (repoFullName_of u) acc)). cbn zeta in IH.
        destruct IH as [IHin [IHnd [added IHext]]]. split; [| split].
        -- intros r. rewrite IHin, set_add_In, derived_from_cons, Hu. split.
           ++ intros [[H | ->] | H]; [left; exact H | | right; right; exact H].
              right. left. exists u. repeat split. apply truthy_Some. exact Ht.
           ++ intros [H | [[u' [Heq [_ ->]]] | H]].
              ** left; left; exact H.
              ** injection Heq as <-. left; right; reflexivity.
              ** right; exact H.
        -- intros Hnd. apply IHnd. apply set_add_NoDup. exact Hnd.
        -- destruct (set_add_extends (repoFullName_of u) acc) as [a1 Ha1].
           exists (a1 ++ added). rewrite IHext, Ha1. symmetry. apply app_assoc.
      * specialize (IH acc). cbn zeta in IH.
        destruct IH as [IHin [IHnd IHext]]. split; [| split]; try assumption.
        intros r. rewrite IHin, derived_from_cons, Hu. split.
        -- intros [H | H]; [left; exact H | right; right; exact H].
        -- intros [H | [[u' [Heq [Hne _]]] | H]];
             [left; exact H | | right; exact H].
           injection Heq as <-. apply truthy_Some in Hne. rewrite Ht in Hne. discriminate.
    + simpl. specialize (IH acc). cbn zeta in IH.
      destruct IH as [IHin [IHnd IHext]]. split; [| split]; try assumption.
      intros r. rewrite IHin, derived_from_cons, Hu. split.
      * intros [H | H]; [left; exact H | right; right; exact H].
      * intros [H | [[u' [Heq _]] | H]]; [left; exact H | discriminate | right; exact H].
Qed.

Lemma trackApprovedRepositories_run (w : World) (s : GithubService) :
  match search_issues w with
  | Rejected error => trackApprovedRepositories w s = mkRun s [] (Throw error)
  | Resolved _ =>
      trackApprovedRepositories w s
      = mkRun (final (trackApprovedRepositories w s)) [] (Ok tt)
        /\ username (final (trackApprovedRepositories w s)) = username s
        /\ orgs (final (trackApprovedRepositories w s)) = orgs s
  end.
Proof.
  unfold trackApprovedRepositories, bind.
  destruct (search_issues w) as [items | error]; simpl; [| reflexivity].
  repeat split.
Qed.

(** ** One polling cycle *)

Lemma bind_run {A B} (m : M A) (k : A -> M B) (s s' : GithubService)
    (ps : list CommentPost) (a : A) :
  m s = mkRun s' ps (Ok a) ->
  bind m k s = mkRun (final (k a s')) (ps ++ issued (k a s')) (outcome (k a s')).
Proof.
  intros Hm. unfold bind. rewrite Hm. reflexivity.
Qed.

Lemma bind_throw {A B} (m : M A) (k : A -> M B) (s s' : GithubService)
    (ps : list CommentPost) (e : Error) :
  m s = mkRun s' ps (Throw e) -> bind m k s = mkRun s' ps (Throw e).
Proof.
  intros Hm. unfold bind. rewrite Hm. reflexivity.
Qed.

Lemma try_catch_run {A} (m : M A) (h : Error -> M A) (s : GithubService)
    (ps : list CommentPost) (a : A) :
  m s = mkRun s ps (Ok a) -> try_catch m h s = mkRun s ps (Ok a).
Proof.
  intros Hm. rewrite (try_catch_ok m h s a); rewrite Hm; reflexivity.
Qed.

Section Cycle.

Variable parseISO : string -> option Z.

Lemma isRecentApproval_iff (s : GithubService) (fiveMinutesAgo : Z) (review : Review.t) :
  isRecentApproval parseISO s fiveMinutesAgo review = true <->
  Review.state review = "APPROVED"
  /\ username s = Some (login (Review.user review))
  /\ exists t, parseISO (Review.submitted_at review) = Some t /\ (fiveMinutesAgo < t)%Z.
Proof.
  unfold isRecentApproval, is_username, isAfter.
  rewrite !andb_true_iff, String.eqb_eq. split.
  - intros [[Hst Hus] Hat]. split; [exact Hst |]. split.
    + destruct (username s) as [u |]; [| discriminate].
      apply String.eqb_eq in Hus. rewrite Hus. reflexivity.
    + destruct (parseISO (Review.submitted_at review)) as [t |]; [| discriminate].
      exists t. split; [reflexivity | apply Z.ltb_lt; exact Hat].
  - intros [Hst [Hus [t [Ht Hlt]]]]. rewrite Hus, Ht.
    repeat split; [exact Hst | apply String.eqb_refl | apply Z.ltb_lt; exact Hlt].
Qed.

Lemma isRecentApproval_window (s : GithubService) (now_ : Z) (review : Review.t) :
  isRecentApproval parseISO s (subMinutes now_ 5) review = true <->
  Review.state review = "APPROVED"
  /\ username s = Some (login (Review.user review))
  /\ exists t, parseISO (Review.submitted_at review) = Some t
               /\ (now_ - 5 * 60 * 1000 < t)%Z.
Proof.
  rewrite isRecentApproval_iff. unfold subMinutes.
  replace (now_ - 5 * 60000)%Z with (now_ - 5 * 60 * 1000)%Z by lia. reflexivity.
Qed.

Lemma processPR_run (w : World) (fiveMinutesAgo : Z) (i : nat) (pr : PullRequest)
    (s : GithubService) :
  exists ps,
    processPR parseISO w fiveMinutesAgo i pr s = mkRun s ps (Ok tt)
    /\ (ps = []
        \/ exists url reviews r comments,
             Js.truthy (html_url pr) = true
             /\ repository_url pr = Some url
             /\ quiet (fetchReviews w pr url) reviews
             /\ find (isRecentApproval parseISO s fiveMinutesAgo) reviews = Some r
             /\ quiet (getPullRequestComments w (repoFullName_of url) (number pr)) comments
             /\ memeAlreadyPosted comments = false
             /\ ps = [ {| post_repo := repoFullName_of url;
                          post_number := number pr;
                          post_body := meme_markdown (getRandomMeme (math_random w i)) |} ]).
Proof.
  unfold processPR.
  destruct (Js.truthy (html_url pr)) eqn:Hh; simpl;
    [| exists []; split; [reflexivity | left; reflexivity]].
  destruct (Js.truthy (repository_url pr)) eqn:Hr; simpl;
    [| exists []; split; [reflexivity | left; reflexivity]].
  destruct (repository_url pr) as [url |] eqn:Hu; [| discriminate Hr].
  destruct (fetchReviews_quiet w pr url) as [reviews Hq].
  pose proof (getPullRequestComments_quiet w (repoFullName_of url) (number pr)) as Hc.
  destruct (find (isRecentApproval parseISO s fiveMinutesAgo) reviews) as [r |] eqn:Hfind.
  - destruct (memeAlreadyPosted
                match issue_comments w (repoFullName_of url) (number pr) with
                | Resolved comments => comments
                | Rejected _ => []
                end) eqn:Hdup.
    + exists []. split; [| left; reflexivity].
      apply try_catch_run.
      rewrite (bind_quiet _ reviews _ s Hq). rewrite bind_this. rewrite Hfind.
      rewrite (bind_quiet _ _ _ s Hc). rewrite Hdup. reflexivity.
    + eexists. split.
      * apply try_catch_run.
        rewrite (bind_quiet _ reviews _ s Hq). rewrite bind_this. rewrite Hfind.
        rewrite (bind_quiet _ _ _ s Hc). rewrite Hdup. apply addMemeComment_run.
      * right. exists url, reviews, r. eexists.
        repeat split; [exact Hq | exact Hfind | exact Hc | exact Hdup].
  - exists []. split; [| left; reflexivity].
    apply try_catch_run.
    rewrite (bind_quiet _ reviews _ s Hq). rewrite bind_this. rewrite Hfind. reflexivity.
Qed.

Lemma promise_all_processPR (w : World) (fiveMinutesAgo : Z) (prs : list PullRequest) :
  forall (i0 : nat) (s : GithubService),
    let r := promise_all (Js.mapi_from i0 (processPR parseISO w fiveMinutesAgo) prs) s in
    final r = s
    /\ (exists l, outcome r = Ok l)
    /\ forall p, In p (issued r) <->
                 exists j pr, nth_error prs j = Some pr
                              /\ In p (issued (processPR parseISO w fiveMinutesAgo (i0 + j) pr s)).
Proof.
  induction prs as [| pr rest IH]; intros i0 s; cbn zeta.
  - simpl. split; [reflexivity |]. split; [exists []; reflexivity |].
    intros p. split; [intros [] |].
    intros [j [pr [Hnth _]]]. destruct j; discriminate Hnth.
  - cbn [Js.mapi_from promise_all].
    destruct (processPR_run w fiveMinutesAgo i0 pr s) as [ps [Hrun _]].
    rewrite Hrun. cbn [final issued outcome].
    specialize (IH (S i0) s). cbn zeta in IH. destruct IH as [IHf [[l IHo] IHi]].
    split; [exact IHf |]. split; [exists (tt :: l); rewrite IHo; reflexivity |].
    intros p. rewrite in_app_iff, IHi. split.
    + intros [Hp | [j [pr' [Hnth Hp]]]].
      * exists 0%nat, pr. rewrite Nat.add_0_r, Hrun. split; [reflexivity | exact Hp].
      * exists (S j), pr'. rewrite Nat.add_succ_r. split; [exact Hnth | exact Hp].
    + intros [[| j] [pr' [Hnth Hp]]].
      * left. simpl in Hnth. injection Hnth as <-.
        rewrite Nat.add_0_r, Hrun in Hp. exact Hp.
      * right. exists j, pr'. rewrite Nat.add_succ_r in Hp.
        split; [exact Hnth | exact Hp].
Qed.

Lemma checkApprovedPRs_run (w : World) (s : GithubService) :
  match search_issues w with
  | Rejected error => checkApprovedPRs parseISO w s = mkRun s [] (Throw error)
  | Resolved _ =>
      match outcome (getPullRequestsForRepos w
                       (filter (passesOrgFilter (orgs (final (trackApprovedRepositories w s))))
                          (approvedRepos (final (trackApprovedRepositories w s))))
                       (final (trackApprovedRepositories w s))) with
      | Throw error =>
          checkApprovedPRs parseISO w s
          = mkRun (final (trackApprovedRepositories w s)) [] (Throw error)
      | Ok repoPRs =>
          checkApprovedPRs parseISO w s
          = mkRun (final (trackApprovedRepositories w s))
              (issued (promise_all
                         (Js.mapi (processPR parseISO w (subMinutes (now w) 5)) repoPRs)
                         (final (trackApprovedRepositories w s))))
              (Ok tt)
      end
  end.
Proof.
  pose proof (trackApprovedRepositories_run w s) as Htrack.
  unfold checkApprovedPRs.
  destruct (search_issues w) as [items | error].
  - destruct Htrack as [Htrack _].
    remember (final (trackApprovedRepositories w s)) as s1 eqn:Hs1.
    rewrite (bind_run _ _ _ _ _ _ Htrack). rewrite bind_this.
    pose proof (getPullRequestsForRepos_pure w
                  (filter (passesOrgFilter (orgs s1)) (approvedRepos s1)) s1) as Hpure.
    destruct (outcome (getPullRequestsForRepos w
                         (filter (passesOrgFilter (orgs s1)) (approvedRepos s1)) s1))
      as [repoPRs | error].
    + rewrite (bind_run _ _ _ _ _ _ Hpure).
      unfold Js.mapi.
      destruct (promise_all_processPR w (subMinutes (now w) 5) repoPRs 0 s1)
        as [Hf [[l Ho] _]].
      assert (Hall : promise_all
                       (Js.mapi_from 0 (processPR parseISO w (subMinutes (now w) 5)) repoPRs) s1
                     = mkRun s1
                         (issued (promise_all
                                    (Js.mapi_from 0
                                       (processPR parseISO w (subMinutes (now w) 5)) repoPRs)
                                    s1))
                         (Ok l)).
      { destruct (promise_all
                    (Js.mapi_from 0 (processPR parseISO w (subMinutes (now w) 5)) repoPRs) s1)
          as [f ps o].
        simpl in *. subst. reflexivity. }
      rewrite (bind_run _ _ _ _ _ _ Hall). cbn [ret final issued outcome app].
      rewrite app_nil_r. reflexivity.
    + rewrite (bind_throw _ _ _ _ _ _ Hpure). reflexivity.
  - apply (bind_throw _ _ _ _ _ _ Htrack).
Qed.

End Cycle.

Section CycleProperties.

Variable parseISO : string -> option Z.

(** C3. The approval test accepts a review record exactly when its state
    is APPROVED, its reviewer is the configured user and its submission
    time is strictly after now minus five minutes.  A record of the
    configured user in state APPROVED is rejected at exactly now - 5:00,
    accepted at now - 4:59 and rejected at now - 5:01. *)
Theorem isRecentApproval_strict_window (s : GithubService) (now_ : Z) (review : Review.t) :
  (isRecentApproval parseISO s (subMinutes now_ 5) review = true <->
   Review.state review = "APPROVED"
   /\ username s = Some (login (Review.user review))
   /\ exists t, parseISO (Review.submitted_at review) = Some t
                /\ (now_ - 5 * 60 * 1000 < t)%Z)
  /\ (Review.state review = "APPROVED" ->
      username s = Some (login (Review.user review)) ->
      (parseISO (Review.submitted_at review) = Some (now_ - 5 * 60 * 1000)%Z ->
       isRecentApproval parseISO s (subMinutes now_ 5) review = false)
      /\ (parseISO (Review.submitted_at review) = Some (now_ - (4 * 60 + 59) * 1000)%Z ->
          isRecentApproval parseISO s (subMinutes now_ 5) review = true)
      /\ (parseISO (Review.submitted_at review) = Some (now_ - (5 * 60 + 1) * 1000)%Z ->
          isRecentApproval parseISO s (subMinutes now_ 5) review = false)).
Proof.
  assert (Hiff : isRecentApproval parseISO s (subMinutes now_ 5) review = true <->
                 Review.state review = "APPROVED"
                 /\ username s = Some (login (Review.user review))
                 /\ exists t, parseISO (Review.submitted_at review) = Some t
                              /\ (now_ - 5 * 60 * 1000 < t)%Z).
  { apply isRecentApproval_window. }
  split; [exact Hiff |].
  intros Hst Hus. split; [| split]; intros Hat.
  - apply not_true_is_false. intros Htrue. apply Hiff in Htrue.
    destruct Htrue as [_ [_ [t [Ht Hlt]]]]. rewrite Hat in Ht. injection Ht as <-. lia.
  - apply Hiff. split; [exact Hst |]. split; [exact Hus |].
    eexists. split; [exact Hat | lia].
  - apply not_true_is_false. intros Htrue. apply Hiff in Htrue.
    destruct Htrue as [_ [_ [t [Ht Hlt]]]]. rewrite Hat in Ht. injection Ht as <-. lia.
Qed.

(** C2 (as the code has it). The approved-repository set is created empty
    with the service object and never cleared.  After
    [trackApprovedRepositories] has run on a search response, the set holds
    exactly what it held before together with the identifiers derived from
    the entries of this response that have a non-empty repository
    reference, each once.  It holds this cycle's identifiers alone exactly
    when everything it held before is again among them, in particular
    when it was empty before.  The rest of the cycle leaves it as it is,
    so it reaches the next cycle. *)
Theorem trackApprovedRepositories_accumulates
    (w : World) (s : GithubService) (items : list PullRequest) :
  search_issues w = Resolved items ->
  (forall r, In r (approvedRepos (final (trackApprovedRepositories w s)))
             <-> In r (approvedRepos s) \/ derived_from items r)
  /\ (NoDup (approvedRepos s) ->
      NoDup (approvedRepos (final (trackApprovedRepositories w s))))
  /\ (approvedRepos s = [] ->
      (forall r, In r (approvedRepos (final (trackApprovedRepositories w s)))
                 <-> derived_from items r)
      /\ NoDup (approvedRepos (final (trackApprovedRepositories w s))))
  /\ ((forall r, In r (approvedRepos (final (trackApprovedRepositories w s)))
                 <-> derived_from items r)
      <-> (forall r, In r (approvedRepos s) -> derived_from items r))
  /\ final (checkApprovedPRs parseISO w s) = final (trackApprovedRepositories w s).
Proof.
  intros Hsearch.
  assert (Hfold : (forall r, In r (approvedRepos (final (trackApprovedRepositories w s)))
                             <-> In r (approvedRepos s) \/ derived_from items r)
                  /\ (NoDup (approvedRepos s) ->
                      NoDup (approvedRepos (final (trackApprovedRepositories w s))))).
  { unfold trackApprovedRepositories, bind. rewrite Hsearch. simpl.
    destruct (track_fold items (approvedRepos s)) as [Hin [Hnd _]].
    split; assumption. }
  destruct Hfold as [Hin Hnd]. split; [exact Hin |]. split; [exact Hnd |].
  split; [| split].
  - intros Hempty. split.
    + intros r. rewrite Hin, Hempty. simpl. tauto.
    + apply Hnd. rewrite Hempty. constructor.
  - split.
    + intros Halone r Hr. apply Halone. apply Hin. left. exact Hr.
    + intros Hold r. rewrite Hin. split.
      * intros [Hr | Hr]; [exact (Hold r Hr) | exact Hr].
      * intros Hr. right. exact Hr.
  - pose proof (checkApprovedPRs_run parseISO w s) as Hrun. rewrite Hsearch in Hrun.
    destruct (outcome (getPullRequestsForRepos w _ _)); rewrite Hrun; reflexivity.
Qed.

(** ** Posting *)

Lemma processPR_post_irrelevant (w : World) (f : CommentPost -> Response unit)
    (fiveMinutesAgo : Z) (i : nat) (pr : PullRequest) (s : GithubService) :
  processPR parseISO (with_post_comment w f) fiveMinutesAgo i pr s
  = processPR parseISO w fiveMinutesAgo i pr s.
Proof.
  unfold processPR.
  destruct (negb (Js.truthy (html_url pr)) || negb (Js.truthy (repository_url pr)));
    [reflexivity |].
  destruct (repository_url pr) as [url |]; [| reflexivity].
  change (fetchReviews (with_post_comment w f) pr url) with (fetchReviews w pr url).
  change (getPullRequestComments (with_post_comment w f)) with (getPullRequestComments w).
  change (math_random (with_post_comment w f)) with (math_random w).
  destruct (fetchReviews_quiet w pr url) as [reviews Hq].
  pose proof (getPullRequestComments_quiet w (repoFullName_of url) (number pr)) as Hc.
  unfold try_catch.
  rewrite !(bind_quiet _ reviews _ s Hq), !bind_this.
  destruct (find (isRecentApproval parseISO s fiveMinutesAgo) reviews); [| reflexivity].
  rewrite !(bind_quiet _ _ _ s Hc).
  destruct (memeAlreadyPosted _); [reflexivity |].
  rewrite !addMemeComment_run. reflexivity.
Qed.

Lemma promise_all_post_irrelevant (w : World) (f : CommentPost -> Response unit)
    (fiveMinutesAgo : Z) (prs : list PullRequest) :
  forall i0 s,
    promise_all (Js.mapi_from i0 (processPR parseISO (with_post_comment w f) fiveMinutesAgo) prs) s
    = promise_all (Js.mapi_from i0 (processPR parseISO w fiveMinutesAgo) prs) s.
Proof.
  induction prs as [| pr rest IH]; intros i0 s; [reflexivity |].
  cbn [Js.mapi_from promise_all]. rewrite processPR_post_irrelevant, IH. reflexivity.
Qed.

(** C8. [addMemeComment] swallows a failed POST: whatever the answer, it
    returns normally after exactly one request, so nothing propagates and
    nothing is retried; and a whole cycle (the service object it leaves,
    the requests it issues for every PR, its outcome) is the same whatever
    the POSTs are answered. *)
Theorem addMemeComment_swallows_failure (w : World) :
  (forall repoFullName pullNumber memeUrl s,
      addMemeComment w repoFullName pullNumber memeUrl s
      = mkRun s [ {| post_repo := repoFullName;
                     post_number := pullNumber;
                     post_body := meme_markdown memeUrl |} ] (Ok tt))
  /\ (forall f s,
        checkApprovedPRs parseISO (with_post_comment w f) s
        = checkApprovedPRs parseISO w s).
Proof.
  split.
  - intros. apply addMemeComment_run.
  - intros f s.
    pose proof (checkApprovedPRs_run parseISO w s) as Hw.
    pose proof (checkApprovedPRs_run parseISO (with_post_comment w f) s) as Hf.
    change (search_issues (with_post_comment w f)) with (search_issues w) in Hf.
    change (trackApprovedRepositories (with_post_comment w f)) with
      (trackApprovedRepositories w) in Hf.
    change (getPullRequestsForRepos (with_post_comment w f)) with
      (getPullRequestsForRepos w) in Hf.
    change (now (with_post_comment w f)) with (now w) in Hf.
    destruct (search_issues w) as [items | error]; [| rewrite Hw, Hf; reflexivity].
    destruct (outcome (getPullRequestsForRepos w _ _)) as [repoPRs | error];
      rewrite Hw, Hf; [| reflexivity].
    unfold Js.mapi. rewrite promise_all_post_irrelevant. reflexivity.
Qed.

Lemma quiet_unique {A} (m : M A) (a b : A) (s : GithubService) :
  quiet m a -> quiet m b -> a = b.
Proof.
  intros Ha Hb. apply (quiet_inj m a b s Ha). rewrite (Hb s). reflexivity.
Qed.

Lemma checkApprovedPRs_issued (w : World) (s : GithubService) (p : CommentPost) :
  In p (issued (checkApprovedPRs parseISO w s)) ->
  exists repoPRs j pr,
    outcome (getPullRequestsForRepos w
               (filter (passesOrgFilter (orgs s))
                  (approvedRepos (final (trackApprovedRepositories w s))))
               (final (trackApprovedRepositories w s))) = Ok repoPRs
    /\ nth_error repoPRs j = Some pr
    /\ username (final (trackApprovedRepositories w s)) = username s
    /\ In p (issued (processPR parseISO w (subMinutes (now w) 5) j pr
                       (final (trackApprovedRepositories w s)))).
Proof.
  pose proof (checkApprovedPRs_run parseISO w s) as Hrun.
  pose proof (trackApprovedRepositories_run w s) as Htrack.
  destruct (search_issues w) as [items | error];
    [| rewrite Hrun; intros []].
  destruct Htrack as [_ [Huser Horgs]]. rewrite Horgs in Hrun.
  destruct (outcome (getPullRequestsForRepos w _ _)) as [repoPRs | error] eqn:Hprs;
    rewrite Hrun; [| intros []].
  cbn [issued]. unfold Js.mapi. intros Hp.
  destruct (promise_all_processPR parseISO w (subMinutes (now w) 5) repoPRs 0
              (final (trackApprovedRepositories w s))) as [_ [_ Hiss]].
  apply Hiss in Hp. destruct Hp as [j [pr [Hnth Hp]]].
  exists repoPRs, j, pr. repeat split; assumption.
Qed.

(** C1 (as the code has it). In every polling cycle a meme comment is
    posted to a candidate PR only if (a) one of the review records obtained
    for the PR is in state APPROVED, by the configured user, and submitted
    strictly after now minus five minutes (there is no upper bound), and
    (b) no body in the list the comments request returned has a catalogue
    URL as a substring, that list being empty when the request failed.
    For every candidate PR, if no record meets (a) or some body of that
    list holds a catalogue URL, no POST goes out for it. *)
Theorem meme_posted_only_if_fresh_approval_and_no_meme (w : World) (s : GithubService) :
  (forall p, In p (issued (checkApprovedPRs parseISO w s)) ->
     exists repoPRs j pr url reviews comments,
       outcome (getPullRequestsForRepos w
                  (filter (passesOrgFilter (orgs s))
                     (approvedRepos (final (trackApprovedRepositories w s))))
                  (final (trackApprovedRepositories w s))) = Ok repoPRs
       /\ nth_error repoPRs j = Some pr
       /\ repository_url pr = Some url
       /\ post_repo p = repoFullName_of url
       /\ post_number p = number pr
       /\ quiet (fetchReviews w pr url) reviews
       /\ (exists r t,
              In r reviews
              /\ Review.state r = "APPROVED"
              /\ username s = Some (login (Review.user r))
              /\ parseISO (Review.submitted_at r) = Some t
              /\ (now w - 5 * 60 * 1000 < t)%Z)
       /\ quiet (getPullRequestComments w (post_repo p) (post_number p)) comments
       /\ (forall cs, issue_comments w (post_repo p) (post_number p) = Resolved cs ->
                      comments = cs)
       /\ (forall error,
              issue_comments w (post_repo p) (post_number p) = Rejected error ->
              comments = [])
       /\ (forall c u, In c comments -> In u memeUrls ->
                       ~ exists a b, body c = (a ++ u ++ b)%string))
  /\ (forall i pr url reviews comments s',
        repository_url pr = Some url ->
        quiet (fetchReviews w pr url) reviews ->
        quiet (getPullRequestComments w (repoFullName_of url) (number pr)) comments ->
        (forall r, In r reviews ->
                   ~ (Review.state r = "APPROVED"
                      /\ username s' = Some (login (Review.user r))
                      /\ exists t, parseISO (Review.submitted_at r) = Some t
                                   /\ (now w - 5 * 60 * 1000 < t)%Z))
        \/ (exists c u, In c comments /\ In u memeUrls
                        /\ exists a b, body c = (a ++ u ++ b)%string) ->
        issued (processPR parseISO w (subMinutes (now w) 5) i pr s') = []).
Proof.
  assert (Hwindow : forall s0 r,
             isRecentApproval parseISO s0 (subMinutes (now w) 5) r = true <->
             Review.state r = "APPROVED"
             /\ username s0 = Some (login (Review.user r))
             /\ exists t, parseISO (Review.submitted_at r) = Some t
                          /\ (now w - 5 * 60 * 1000 < t)%Z).
  { intros s0 r. apply isRecentApproval_window. }
  split.
  - intros p Hp.
    destruct (checkApprovedPRs_issued w s p Hp) as [repoPRs [j [pr [Hprs [Hnth [Huser Hin]]]]]].
    destruct (processPR_run parseISO w (subMinutes (now w) 5) j pr
                (final (trackApprovedRepositories w s))) as [ps [Hrun Hps]].
    rewrite Hrun in Hin. cbn [issued] in Hin.
    destruct Hps as [-> | [url [reviews [r [comments Hall]]]]]; [destruct Hin |].
    destruct Hall as [_ [Hurl [Hq [Hfind [Hc [Hdup ->]]]]]].
    destruct Hin as [<- | []]. cbn [post_repo post_number].
    exists repoPRs, j, pr, url, reviews, comments.
    repeat (split; [assumption || reflexivity |]).
    split; [| split; [exact Hc | split; [| split]]].
    + apply find_some in Hfind. destruct Hfind as [Hr Hrecent].
      apply Hwindow in Hrecent. rewrite Huser in Hrecent.
      destruct Hrecent as [Hst [Hus [t [Ht Hlt]]]].
      exists r, t. repeat split; assumption.
    + intros cs Hcs.
      pose proof (getPullRequestComments_quiet w (repoFullName_of url) (number pr)) as Hc'.
      rewrite Hcs in Hc'. exact (quiet_unique _ _ _ s Hc Hc').
    + intros error Herr.
      pose proof (getPullRequestComments_quiet w (repoFullName_of url) (number pr)) as Hc'.
      rewrite Herr in Hc'. exact (quiet_unique _ _ _ s Hc Hc').
    + apply memeAlreadyPosted_false. exact Hdup.
  - intros i pr url reviews comments s' Hurl Hq Hc Hfail.
    destruct (processPR_run parseISO w (subMinutes (now w) 5) i pr s') as [ps [Hrun Hps]].
    rewrite Hrun. cbn [issued].
    destruct Hps as [-> | [url' [reviews' [r [comments' Hall]]]]]; [reflexivity |].
    exfalso. destruct Hall as [_ [Hurl' [Hq' [Hfind [Hc' [Hdup _]]]]]].
    rewrite Hurl in Hurl'. injection Hurl' as <-.
    pose proof (quiet_unique _ _ _ s' Hq Hq') as <-.
    pose proof (quiet_unique _ _ _ s' Hc Hc') as <-.
    destruct Hfail as [Hnone | [c [u [Hin [Hu Hsub]]]]].
    + apply find_some in Hfind. destruct Hfind as [Hr Hrecent].
      apply Hwindow in Hrecent. exact (Hnone r Hr Hrecent).
    + rewrite memeAlreadyPosted_false in Hdup. exact (Hdup c u Hin Hu Hsub).
Qed.

(** C9. Every comment the service posts has the body [![Meme](<url>)]
    with <url> one of the eight catalogue entries: [getRandomMeme] returns
    a catalogue URL for every value of [Math.random()], [addMemeComment]
    posts its URL inside exactly that markdown, and so does every POST of
    a cycle. *)
Theorem meme_comment_body_from_catalog (w : World) :
  length memeUrls = 8%nat
  /\ (forall k, unit_interval k -> exists u, getRandomMeme k = Some u /\ In u memeUrls)
  /\ (forall repoFullName pullNumber u s,
        issued (addMemeComment w repoFullName pullNumber (Some u) s)
        = [ {| post_repo := repoFullName;
               post_number := pullNumber;
               post_body := ("![Meme](" ++ u ++ ")")%string |} ])
  /\ (forall s p,
        (forall i, unit_interval (math_random w i)) ->
        In p (issued (checkApprovedPRs parseISO w s)) ->
        exists u, In u memeUrls /\ post_body p = ("![Meme](" ++ u ++ ")")%string).
Proof.
  split; [reflexivity |]. split; [exact getRandomMeme_in_catalog |]. split.
  - intros. rewrite addMemeComment_run. reflexivity.
  - intros s p Hrand Hp.
    destruct (checkApprovedPRs_issued w s p Hp) as [repoPRs [j [pr [_ [_ [_ Hin]]]]]].
    destruct (processPR_run parseISO w (subMinutes (now w) 5) j pr
                (final (trackApprovedRepositories w s))) as [ps [Hrun Hps]].
    rewrite Hrun in Hin. cbn [issued] in Hin.
    destruct Hps as [-> | [url [reviews [r [comments Hall]]]]]; [destruct Hin |].
    destruct Hall as [_ [_ [_ [_ [_ [_ ->]]]]]].
    destruct Hin as [<- | []]. cbn [post_body].
    destruct (getRandomMeme_in_catalog (math_random w j) (Hrand j)) as [u [Hu Hcat]].
    exists u. split; [exact Hcat |]. rewrite Hu. reflexivity.
Qed.

End CycleProperties.

(** ** The model at work: the sample cycles *)

Lemma isRecentApproval_strict_window_witness :
  isRecentApproval Sample.parseISO Sample.service (subMinutes Sample.noon 5)
    (Sample.review "APPROVED" "alice" "2024-05-01T11:55:00Z") = false
  /\ isRecentApproval Sample.parseISO Sample.service (subMinutes Sample.noon 5)
       (Sample.review "APPROVED" "alice" "2024-05-01T11:55:01Z") = true
  /\ isRecentApproval Sample.parseISO Sample.service (subMinutes Sample.noon 5)
       (Sample.review "APPROVED" "alice" "2024-05-01T11:54:59Z") = false.
Proof.
  destruct (isRecentApproval_strict_window Sample.parseISO Sample.service Sample.noon
              (Sample.review "APPROVED" "alice" "2024-05-01T11:55:00Z"))
    as [_ Hedge].
  destruct (isRecentApproval_strict_window Sample.parseISO Sample.service Sample.noon
              (Sample.review "APPROVED" "alice" "2024-05-01T11:55:01Z"))
    as [_ Hinside].
  destruct (isRecentApproval_strict_window Sample.parseISO Sample.service Sample.noon
              (Sample.review "APPROVED" "alice" "2024-05-01T11:54:59Z"))
    as [_ Houtside].
  destruct (Hedge eq_refl eq_refl) as [H500 _].
  destruct (Hinside eq_refl eq_refl) as [_ [H459 _]].
  destruct (Houtside eq_refl eq_refl) as [_ [_ H501]].
  split; [| split].
  - apply H500. reflexivity.
  - apply H459. reflexivity.
  - apply H501. reflexivity.
Defined.

(** The first cycle of a fresh service: the set is the two distinct
    identifiers of the search response, in order of first appearance. *)
Example first_cycle_tracks_search_results :
  approvedRepos (final (trackApprovedRepositories Sample.world_approved Sample.service))
  = ["orgA/repo1"; "other/repo9"].
Proof. reflexivity. Qed.

(** The set is not rebuilt per cycle: after the second cycle's tracking
    it still holds orgA/repo1, which only the first cycle's search
    returned and which no entry of the second search yields. *)
Lemma approvedRepos_outlive_their_cycle :
  search_issues Sample.next_world
  = Resolved [Sample.closed_pr (Some "https://api.github.com/repos/orgB/tool") 5]
  /\ approvedRepos
       (final (trackApprovedRepositories Sample.next_world
                 (fst (run_cycles Sample.parseISO [Sample.world_approved] Sample.service))))
     = ["orgA/repo1"; "other/repo9"; "orgB/tool"]
  /\ ~ derived_from [Sample.closed_pr (Some "https://api.github.com/repos/orgB/tool") 5]
         "orgA/repo1".
Proof.
  split; [reflexivity |]. split; [vm_compute; reflexivity |].
  intros [pr [u [[<- | []] [Hu [_ Hr]]]]].
  simpl in Hu. injection Hu as <-. vm_compute in Hr. discriminate Hr.
Qed.

Lemma trackApprovedRepositories_accumulates_witness :
  (forall r,
      In r (approvedRepos
              (final (trackApprovedRepositories Sample.next_world
                        (fst (run_cycles Sample.parseISO [Sample.world_approved]
                                Sample.service)))))
      <-> In r ["orgA/repo1"; "other/repo9"]
          \/ derived_from [Sample.closed_pr (Some "https://api.github.com/repos/orgB/tool") 5] r)
  /\ ((forall r,
          In r (approvedRepos
                  (final (trackApprovedRepositories Sample.next_world
                            (fst (run_cycles Sample.parseISO [Sample.world_approved]
                                    Sample.service)))))
          <-> derived_from
                [Sample.closed_pr (Some "https://api.github.com/repos/orgB/tool") 5] r)
      <-> (forall r, In r ["orgA/repo1"; "other/repo9"] ->
                     derived_from
                       [Sample.closed_pr (Some "https://api.github.com/repos/orgB/tool") 5] r))
  /\ final (checkApprovedPRs Sample.parseISO Sample.next_world
              (fst (run_cycles Sample.parseISO [Sample.world_approved] Sample.service)))
     = final (trackApprovedRepositories Sample.next_world
                (fst (run_cycles Sample.parseISO [Sample.world_approved] Sample.service))).
Proof.
  destruct (trackApprovedRepositories_accumulates Sample.parseISO Sample.next_world
              (fst (run_cycles Sample.parseISO [Sample.world_approved] Sample.service))
              [Sample.closed_pr (Some "https://api.github.com/repos/orgB/tool") 5]
              eq_refl) as [Hin [_ [_ [Halone Hfinal]]]].
  split; [exact Hin |]. split; [exact Halone | exact Hfinal].
Defined.

(** PR #42 of orgA/repo1, approved one minute ago and without comments,
    gets exactly one POST; [Math.random()] = 0.5 picks the fifth entry. *)
Example cycle_posts_one_meme :
  checkApprovedPRs Sample.parseISO Sample.world_approved Sample.service
  = mkRun (with_approvedRepos Sample.service ["orgA/repo1"; "other/repo9"])
      [ {| post_repo := "orgA/repo1";
           post_number := 42;
           post_body := "![Meme](https://i.imgflip.com/8qwq96.jpg)" |} ]
      (Ok tt).
Proof. vm_compute. reflexivity. Qed.

(** With a catalogue URL already in a comment nothing is posted. *)
Example cycle_skips_pr_with_meme :
  issued (checkApprovedPRs Sample.parseISO Sample.world_duplicate Sample.service) = [].
Proof. vm_compute. reflexivity. Qed.

(** A rejected comments request counts as "no comments": the meme goes out. *)
Example cycle_posts_when_comments_request_fails :
  issued (checkApprovedPRs Sample.parseISO
            (Sample.world (Resolved [Sample.approval]) (Resolved [])
               (Rejected Sample.server_error) (Resolved tt))
            Sample.service)
  = [ {| post_repo := "orgA/repo1";
         post_number := 42;
         post_body := "![Meme](https://i.imgflip.com/8qwq96.jpg)" |} ].
Proof. vm_compute. reflexivity. Qed.

(** A failed pulls request aborts the cycle after the tracking step. *)
Example cycle_aborts_when_pulls_fail :
  outcome (checkApprovedPRs Sample.parseISO Sample.world_pulls_fail
             (with_approvedRepos Sample.service ["orgA/repo1"; "orgB/tool"]))
  = Throw Sample.server_error.
Proof. vm_compute. reflexivity. Qed.

(** The filter compares with the configured name followed by a slash, so
    a configured name that itself holds a slash matches a longer path. *)
Example passesOrgFilter_name_with_slash :
  passesOrgFilter ["a/b"] "a/b/c" = true /\ passesOrgFilter ["a/b"] "a/bc" = false
  /\ passesOrgFilter ["orgA"] "orgAB/repo" = false
  /\ passesOrgFilter ["orgA"] "x/orgA/repo" = false.
Proof. repeat split. Qed.

(** A failed comments request hides the comments of the PR.  The cycle
    before noon posts the meme on orgA/repo1 #42 and the POST succeeds; at
    noon the comments request is answered with a 500, the list is taken
    as empty, and a second meme goes to the PR that already carries one. *)
Lemma meme_posted_again_when_comments_request_fails :
  issued (checkApprovedPRs Sample.parseISO Sample.world_earlier Sample.service)
  = [Sample.meme_post]
  /\ post_comment Sample.world_earlier Sample.meme_post = Resolved tt
  /\ In "https://i.imgflip.com/8qwq96.jpg" memeUrls
  /\ (exists a b,
         post_body Sample.meme_post
         = (a ++ "https://i.imgflip.com/8qwq96.jpg" ++ b)%string)
  /\ issue_comments Sample.world_comments_fail
       (post_repo Sample.meme_post) (post_number Sample.meme_post)
     = Rejected Sample.server_error
  /\ snd (run_cycles Sample.parseISO [Sample.world_earlier; Sample.world_comments_fail]
            Sample.service)
     = [Sample.meme_post; Sample.meme_post].
Proof.
  split; [vm_compute; reflexivity |]. split; [reflexivity |].
  split; [simpl; tauto |]. split; [exists "![Meme](", ")"; reflexivity |].
  split; [reflexivity | vm_compute; reflexivity].
Qed.

Lemma meme_posted_only_if_fresh_approval_and_no_meme_witness :
  (exists repoPRs j pr url reviews comments,
      outcome (getPullRequestsForRepos Sample.world_approved
                 (filter (passesOrgFilter (orgs Sample.service))
                    (approvedRepos
                       (final (trackApprovedRepositories Sample.world_approved
                                 Sample.service))))
                 (final (trackApprovedRepositories Sample.world_approved Sample.service)))
      = Ok repoPRs
      /\ nth_error repoPRs j = Some pr
      /\ repository_url pr = Some url
      /\ "orgA/repo1" = repoFullName_of url
      /\ 42%Z = number pr
      /\ quiet (fetchReviews Sample.world_approved pr url) reviews
      /\ (exists r t,
             In r reviews
             /\ Review.state r = "APPROVED"
             /\ username Sample.service = Some (login (Review.user r))
             /\ Sample.parseISO (Review.submitted_at r) = Some t
             /\ (now Sample.world_approved - 5 * 60 * 1000 < t)%Z)
      /\ quiet (getPullRequestComments Sample.world_approved "orgA/repo1" 42%Z) comments
      /\ (forall cs, issue_comments Sample.world_approved "orgA/repo1" 42%Z = Resolved cs ->
                     comments = cs)
      /\ (forall error,
             issue_comments Sample.world_approved "orgA/repo1" 42%Z = Rejected error ->
             comments = [])
      /\ (forall c u, In c comments -> In u memeUrls ->
                      ~ exists a b, body c = (a ++ u ++ b)%string))
  /\ issued (processPR Sample.parseISO Sample.world_duplicate
               (subMinutes (now Sample.world_duplicate) 5) 0 Sample.pr42 Sample.service)
     = [].
Proof.
  destruct (meme_posted_only_if_fresh_approval_and_no_meme Sample.parseISO
              Sample.world_approved Sample.service) as [Honly _].
  destruct (meme_posted_only_if_fresh_approval_and_no_meme Sample.parseISO
              Sample.world_duplicate Sample.service) as [_ Hnone].
  split.
  - apply (Honly {| post_repo := "orgA/repo1";
                    post_number := 42;
                    post_body := "![Meme](https://i.imgflip.com/8qwq96.jpg)" |}).
    vm_compute. left. reflexivity.
  - apply (Hnone 0%nat Sample.pr42 Sample.repo1_url [Sample.approval]
             [ {| body := "nice! ![Meme](https://i.imgflip.com/8qwq96.jpg)" |} ]
             Sample.service).
    + reflexivity.
    + intros s. reflexivity.
    + intros s. reflexivity.
    + right. exists {| body := "nice! ![Meme](https://i.imgflip.com/8qwq96.jpg)" |},
        "https://i.imgflip.com/8qwq96.jpg".
      split; [left; reflexivity |]. split; [simpl; tauto |].
      exists "nice! ![Meme](", ")". reflexivity.
Defined.

Lemma meme_comment_body_from_catalog_witness :
  (exists u, getRandomMeme (2 ^ 1073) = Some u /\ In u memeUrls)
  /\ exists u, In u memeUrls
               /\ "![Meme](https://i.imgflip.com/8qwq96.jpg)" = ("![Meme](" ++ u ++ ")")%string.
Proof.
  destruct (meme_comment_body_from_catalog Sample.parseISO Sample.world_approved)
    as [_ [Hrandom [_ Hcycle]]].
  split.
  - apply Hrandom. vm_compute. split; [discriminate | reflexivity].
  - apply (Hcycle Sample.service
             {| post_repo := "orgA/repo1";
                post_number := 42;
                post_body := "![Meme](https://i.imgflip.com/8qwq96.jpg)" |}).
    + intros i. vm_compute. split; [discriminate | reflexivity].
    + vm_compute. left. reflexivity.
Defined.

(** * Further properties of the service *)

(** ** Repository identifiers and the configured organisations *)

Lemma prefix_app_self (p x : string) : String.prefix p (p ++ x) = true.
Proof. apply prefix_spec. exists x. reflexivity. Qed.

Lemma drop_app (p x : string) : Js.drop (String.length p) (p ++ x) = x.
Proof. induction p as [| c p IH]; [reflexivity | exact IH]. Qed.

Lemma replace_absent (s : string) :
  forall pat rep, Js.includes s pat = false -> Js.replace s pat rep = s.
Proof.
  induction s as [| c s IH]; intros pat rep Hno; cbn [Js.includes Js.replace] in *.
  - destruct (String.prefix pat ""); [discriminate | reflexivity].
  - destruct (String.prefix pat (String c s)); [discriminate |].
    rewrite (IH pat rep Hno). reflexivity.
Qed.

(** X1. The identifier of a repository is recovered from its API URL: removing
    the prefix [https://api.github.com/repos/] from the URL built for
    [owner/name] gives back [owner/name].  A reference that does not hold
    this prefix anywhere is taken whole as the identifier. *)
Theorem repoFullName_of_api_url :
  (forall r, repoFullName_of (api_repos_prefix ++ r) = r)
  /\ (forall u, Js.includes u api_repos_prefix = false -> repoFullName_of u = u).
Proof.
  split.
  - intros r. unfold repoFullName_of.
    assert (Hrep : forall pat x, Js.replace (pat ++ x) pat "" = x).
    { intros pat x. destruct pat as [| c pat].
      - destruct x; reflexivity.
      - cbn [Js.replace append].
        change (String c (pat ++ x)) with (String c pat ++ x)%string.
        rewrite prefix_app_self. simpl. apply drop_app. }
    apply Hrep.
  - intros u Hno. apply replace_absent. exact Hno.
Qed.

Lemma repoFullName_of_api_url_witness :
  repoFullName_of "https://github.com/orgA/repo1" = "https://github.com/orgA/repo1".
Proof.
  apply (proj2 repoFullName_of_api_url). reflexivity.
Defined.

Lemma includes_cons_other (c x : ascii) (h : string) :
  c <> x -> Js.includes (String c h) (String x "") = Js.includes h (String x "").
Proof.
  intros Hne. cbn [Js.includes].
  destruct (String.prefix (String x "") (String c h)) eqn:Hp; [| reflexivity].
  apply prefix_cons in Hp. destruct Hp as [<- _]. contradiction.
Qed.

Lemma concat_cons (sep x : string) (l : list string) :
  l <> [] -> String.concat sep (x :: l) = (x ++ sep ++ String.concat sep l)%string.
Proof.
  destruct l as [| y l]; [contradiction | reflexivity].
Qed.

Lemma split_spec (sep : ascii) (s : string) :
  String.concat (String sep "") (Js.split sep s) = s
  /\ Js.split sep s <> []
  /\ Forall (fun o => Js.includes o (String sep "") = false) (Js.split sep s).
Proof.
  induction s as [| c s [IHcat [IHne IHall]]].
  - simpl. repeat split; [discriminate | repeat constructor].
  - cbn [Js.split]. destruct (Ascii.eqb c sep) eqn:Hc.
    + apply Ascii.eqb_eq in Hc. subst c. split; [| split].
      * rewrite (concat_cons _ _ _ IHne), IHcat. reflexivity.
      * discriminate.
      * constructor; [reflexivity | exact IHall].
    + apply Ascii.eqb_neq in Hc.
      destruct (Js.split sep s) as [| h t] eqn:Hsplit; [contradiction |].
      split; [| split].
      * destruct t as [| h' t].
        -- rewrite <- IHcat. reflexivity.
        -- rewrite concat_cons by discriminate.
           rewrite concat_cons in IHcat by discriminate.
           rewrite <- IHcat. reflexivity.
      * discriminate.
      * inversion IHall as [| ? ? Hh Ht]; subst. constructor; [| exact Ht].
        rewrite includes_cons_other; assumption.
Qed.

(** X2. The organisation list is the value of GITHUB_ORGS cut at its commas:
    joining the list with commas gives the variable back, the list is never
    empty when the variable is set (an empty value yields one empty name)
    and no name holds a comma; with the variable unset the list is empty. *)
Theorem orgs_split_at_commas (env : ProcessEnv) :
  (GITHUB_ORGS env = None -> orgs (new_GithubService env) = [])
  /\ (forall v, GITHUB_ORGS env = Some v ->
        String.concat "," (orgs (new_GithubService env)) = v
        /\ orgs (new_GithubService env) <> []
        /\ Forall (fun o => Js.includes o "," = false) (orgs (new_GithubService env))).
Proof.
  unfold new_GithubService. cbn [orgs]. split.
  - intros ->. reflexivity.
  - intros v ->. apply (split_spec "," v).
Qed.

Lemma orgs_split_at_commas_witness :
  String.concat "," (orgs Sample.service) = "orgA,orgB"
  /\ orgs Sample.service <> []
  /\ Forall (fun o => Js.includes o "," = false) (orgs Sample.service).
Proof.
  apply (orgs_split_at_commas
           {| GITHUB_NAME := Some "alice"; GITHUB_ORGS := Some "orgA,orgB" |}).
  reflexivity.
Defined.

(** ** The random choice *)

(** X3. [getRandomMeme] cuts the unit interval into eight pieces of equal
    width: a value of [Math.random()] in the i-th eighth selects the i-th
    catalogue entry, so every entry can be drawn. *)
Theorem getRandomMeme_equal_eighths (i : nat) (k : Z) :
  (i < length memeUrls)%nat ->
  (Z.of_nat i * 2 ^ 1071 <= k < (Z.of_nat i + 1) * 2 ^ 1071)%Z ->
  unit_interval k /\ getRandomMeme k = nth_error memeUrls i.
Proof.
  change (length memeUrls) with 8%nat. intros Hi Hk.
  assert (Hpow : (2 ^ 1074 = 2 ^ 1071 * 8)%Z).
  { change 1074%Z with (1071 + 3)%Z. rewrite Z.pow_add_r by lia. reflexivity. }
  unfold unit_interval, getRandomMeme.
  change (Z.of_nat (length memeUrls)) with 8%Z. rewrite Hpow.
  remember (2 ^ 1071)%Z as D eqn:HD.
  assert (HDpos : (0 < D)%Z) by (subst D; apply Z.pow_pos_nonneg; lia).
  split; [nia |].
  rewrite Z.div_mul_cancel_r by lia.
  assert (Hq : (k / D = Z.of_nat i)%Z).
  { symmetry. apply (Z.div_unique k D (Z.of_nat i) (k - D * Z.of_nat i)); lia. }
  rewrite Hq.
  destruct (Z.of_nat i <? 0)%Z eqn:Hneg; [apply Z.ltb_lt in Hneg; lia |].
  rewrite Nat2Z.id. reflexivity.
Qed.

Lemma getRandomMeme_equal_eighths_witness :
  unit_interval (7 * 2 ^ 1071)
  /\ getRandomMeme (7 * 2 ^ 1071)
     = Some "https://i.pinimg.com/564x/e0/b9/32/e0b932da2b84a6bc012af9b9a5774087.jpg".
Proof.
  apply (getRandomMeme_equal_eighths 7 (7 * 2 ^ 1071)).
  - simpl. lia.
  - vm_compute. split; [discriminate | reflexivity].
Defined.

(** ** The stages of a cycle *)

Lemma getPullRequestsForRepos_ext
    (w : World) (f : string -> Response (list PullRequest))
    (repoNames : list string) (s : GithubService) :
  (forall r, In r repoNames -> f r = repo_pulls w r) ->
  getPullRequestsForRepos (with_repo_pulls w f) repoNames s
  = getPullRequestsForRepos w repoNames s.
Proof.
  intros Hagree. unfold getPullRequestsForRepos.
  change (repo_pulls (with_repo_pulls w f)) with f.
  rewrite (map_ext_in (fun repoFullName => await (f repoFullName))
             (fun repoFullName => await (repo_pulls w repoFullName)) repoNames).
  - reflexivity.
  - intros r Hr. rewrite (Hagree r Hr). reflexivity.
Qed.

Lemma all_resolved_lists (w : World) (repoNames : list string) :
  (forall r, In r repoNames -> exists l, repo_pulls w r = Resolved l) ->
  exists lists, Forall2 (fun repo l => repo_pulls w repo = Resolved l) repoNames lists.
Proof.
  induction repoNames as [| r rest IH]; intros Hall.
  - exists []. constructor.
  - destruct (Hall r (or_introl eq_refl)) as [l Hl].
    destruct (IH (fun r' Hr' => Hall r' (or_intror Hr'))) as [lists Hlists].
    exists (l :: lists). constructor; assumption.
Qed.

Lemma getPullRequestsForRepos_outcome
    (w : World) (repoNames : list string) (s : GithubService) :
  ((exists repo error, In repo repoNames /\ repo_pulls w repo = Rejected error) ->
   exists error, outcome (getPullRequestsForRepos w repoNames s) = Throw error)
  /\ ((forall r, In r repoNames -> exists l, repo_pulls w r = Resolved l) ->
      exists repoPRs, outcome (getPullRequestsForRepos w repoNames s) = Ok repoPRs).
Proof.
  pose proof (promise_all_pulls w repoNames s) as H. cbv zeta in H.
  destruct H as [_ [_ [Hok Hbad]]].
  unfold getPullRequestsForRepos, bind. split.
  - intros Hfail. destruct (Hbad Hfail) as [error Hthrow].
    exists error. rewrite Hthrow. reflexivity.
  - intros Hall. destruct (all_resolved_lists w repoNames Hall) as [lists Hlists].
    exists (concat lists). rewrite (Hok lists Hlists). reflexivity.
Qed.

Lemma filter_no_orgs (repos : list string) : filter (passesOrgFilter []) repos = [].
Proof.
  induction repos as [| r rest IH]; [reflexivity | exact IH].
Qed.

Section FurtherCycleProperties.

Variable parseISO : string -> option Z.

(** X4. Repositories outside the configured organisations are never asked for
    their pull requests: a cycle runs the same whatever the pulls endpoint
    would answer for an identifier that does not pass the filter. *)
Theorem repos_outside_orgs_never_fetched
    (w : World) (f : string -> Response (list PullRequest)) (s : GithubService) :
  (forall r, passesOrgFilter (orgs s) r = true -> f r = repo_pulls w r) ->
  checkApprovedPRs parseISO (with_repo_pulls w f) s = checkApprovedPRs parseISO w s.
Proof.
  intros Hagree.
  pose proof (checkApprovedPRs_run parseISO w s) as Hw.
  pose proof (checkApprovedPRs_run parseISO (with_repo_pulls w f) s) as Hf.
  pose proof (trackApprovedRepositories_run w s) as Htrack.
  change (search_issues (with_repo_pulls w f)) with (search_issues w) in Hf.
  change (trackApprovedRepositories (with_repo_pulls w f)) with
    (trackApprovedRepositories w) in Hf.
  change (now (with_repo_pulls w f)) with (now w) in Hf.
  change (processPR parseISO (with_repo_pulls w f)) with (processPR parseISO w) in Hf.
  destruct (search_issues w) as [items | error]; [| rewrite Hw, Hf; reflexivity].
  destruct Htrack as [_ [_ Horgs]].
  rewrite getPullRequestsForRepos_ext in Hf.
  - destruct (outcome (getPullRequestsForRepos w _ _)); rewrite Hw, Hf; reflexivity.
  - intros r Hr. apply filter_In in Hr. destruct Hr as [_ Hpass].
    rewrite Horgs in Hpass. apply Hagree. exact Hpass.
Qed.

(** X5. A cycle throws only when the search request fails or the pulls request
    of a repository that passed the filter fails; nothing has been posted
    when it throws.  A failed search leaves the service object untouched.
    Whatever happens while a single PR is processed, the cycle completes. *)
Theorem cycle_throws_only_on_search_or_pulls (w : World) (s : GithubService) :
  (forall error, search_issues w = Rejected error ->
     checkApprovedPRs parseISO w s = mkRun s [] (Throw error))
  /\ (forall items, search_issues w = Resolved items ->
        ((forall r, In r (approvedRepos (final (trackApprovedRepositories w s))) ->
                    passesOrgFilter (orgs s) r = true ->
                    exists l, repo_pulls w r = Resolved l)
         <-> outcome (checkApprovedPRs parseISO w s) = Ok tt))
  /\ (forall error, outcome (checkApprovedPRs parseISO w s) = Throw error ->
        issued (checkApprovedPRs parseISO w s) = []).
Proof.
  pose proof (checkApprovedPRs_run parseISO w s) as Hrun.
  pose proof (trackApprovedRepositories_run w s) as Htrack.
  split; [| split].
  - intros error Hs. rewrite Hs in Hrun. exact Hrun.
  - intros items Hs. rewrite Hs in Hrun, Htrack. destruct Htrack as [_ [_ Horgs]].
    rewrite Horgs in Hrun.
    destruct (getPullRequestsForRepos_outcome w
                (filter (passesOrgFilter (orgs s))
                   (approvedRepos (final (trackApprovedRepositories w s))))
                (final (trackApprovedRepositories w s))) as [Hbad Hgood].
    split.
    + intros Hall.
      destruct Hgood as [repoPRs Hok].
      { intros r Hr. apply filter_In in Hr. destruct Hr as [Hr Hpass].
        exact (Hall r Hr Hpass). }
      rewrite Hok in Hrun. rewrite Hrun. reflexivity.
    + intros Hok r Hr Hpass.
      destruct (repo_pulls w r) as [l | error] eqn:Hresp; [exists l; reflexivity |].
      exfalso. destruct Hbad as [error' Hthrow].
      { exists r, error. split; [| exact Hresp].
        apply filter_In. split; assumption. }
      rewrite Hthrow in Hrun. rewrite Hrun in Hok. discriminate Hok.
  - intros error Hthrow.
    destruct (search_issues w) as [items | error0]; [| rewrite Hrun; reflexivity].
    destruct (outcome (getPullRequestsForRepos w _ _)) as [repoPRs | error0];
      rewrite Hrun in *; [discriminate Hthrow | reflexivity].
Qed.

Lemma promise_all_issued_length (w : World) (fiveMinutesAgo : Z) (prs : list PullRequest) :
  forall (i0 : nat) (s : GithubService),
    (length (issued (promise_all
                       (Js.mapi_from i0 (processPR parseISO w fiveMinutesAgo) prs) s))
     <= length prs)%nat.
Proof.
  induction prs as [| pr rest IH]; intros i0 s; [apply Nat.le_refl |].
  cbn [Js.mapi_from promise_all].
  destruct (processPR_run parseISO w fiveMinutesAgo i0 pr s) as [ps [Hrun Hps]].
  rewrite Hrun. cbn [final issued]. rewrite length_app.
  specialize (IH (S i0) s).
  destruct Hps as [-> | [url [reviews [r [comments [_ [_ [_ [_ [_ [_ ->]]]]]]]]]]];
    simpl; lia.
Qed.

(** X6. A candidate PR gets at most one POST in a cycle, so a cycle issues no
    more POSTs than there are candidate PRs. *)
Theorem at_most_one_post_per_candidate (w : World) (s : GithubService) :
  (forall fiveMinutesAgo i pr s',
      (length (issued (processPR parseISO w fiveMinutesAgo i pr s')) <= 1)%nat)
  /\ (forall repoPRs,
        outcome (getPullRequestsForRepos w
                   (filter (passesOrgFilter (orgs s))
                      (approvedRepos (final (trackApprovedRepositories w s))))
                   (final (trackApprovedRepositories w s))) = Ok repoPRs ->
        (length (issued (checkApprovedPRs parseISO w s)) <= length repoPRs)%nat).
Proof.
  split.
  - intros fiveMinutesAgo i pr s'.
    destruct (processPR_run parseISO w fiveMinutesAgo i pr s') as [ps [Hrun Hps]].
    rewrite Hrun. cbn [issued].
    destruct Hps as [-> | [url [reviews [r [comments [_ [_ [_ [_ [_ [_ ->]]]]]]]]]]];
      simpl; lia.
  - intros repoPRs Hprs.
    pose proof (checkApprovedPRs_run parseISO w s) as Hrun.
    pose proof (trackApprovedRepositories_run w s) as Htrack.
    destruct (search_issues w) as [items | error];
      [| rewrite Hrun; simpl; lia].
    destruct Htrack as [_ [_ Horgs]]. rewrite Horgs, Hprs in Hrun.
    rewrite Hrun. cbn [issued]. apply promise_all_issued_length.
Qed.

(** X7. With no organisation configured (GITHUB_ORGS unset) no repository
    passes the filter: the cycle asks for no pull requests, posts nothing,
    and completes whenever the search request succeeds. *)
Theorem no_orgs_no_posts (w : World) (s : GithubService) :
  orgs s = [] ->
  issued (checkApprovedPRs parseISO w s) = []
  /\ (forall items, search_issues w = Resolved items ->
        outcome (checkApprovedPRs parseISO w s) = Ok tt)
  /\ (forall f, checkApprovedPRs parseISO (with_repo_pulls w f) s
                = checkApprovedPRs parseISO w s).
Proof.
  intros Hnone.
  assert (Hcycle : forall w0,
             issued (checkApprovedPRs parseISO w0 s) = []
             /\ (forall items, search_issues w0 = Resolved items ->
                   checkApprovedPRs parseISO w0 s
                   = mkRun (final (trackApprovedRepositories w0 s)) [] (Ok tt))).
  { intros w0.
    pose proof (checkApprovedPRs_run parseISO w0 s) as Hrun.
    pose proof (trackApprovedRepositories_run w0 s) as Htrack.
    destruct (search_issues w0) as [items | error].
    - destruct Htrack as [_ [_ Horgs]].
      rewrite Horgs, Hnone, filter_no_orgs in Hrun. simpl in Hrun.
      rewrite Hrun. split; [reflexivity | intros; reflexivity].
    - rewrite Hrun. split; [reflexivity | discriminate]. }
  split; [apply Hcycle |]. split.
  - intros items Hs. destruct (Hcycle w) as [_ Hok]. rewrite (Hok items Hs). reflexivity.
  - intros f.
    pose proof (checkApprovedPRs_run parseISO (with_repo_pulls w f) s) as Hf.
    pose proof (checkApprovedPRs_run parseISO w s) as Hw.
    change (search_issues (with_repo_pulls w f)) with (search_issues w) in Hf.
    change (trackApprovedRepositories (with_repo_pulls w f)) with
      (trackApprovedRepositories w) in Hf.
    destruct (search_issues w) as [items | error] eqn:Hs.
    + destruct (Hcycle w) as [_ Hok]. rewrite (Hok items Hs).
      destruct (Hcycle (with_repo_pulls w f)) as [_ Hok'].
      rewrite (Hok' items Hs). reflexivity.
    + rewrite Hw, Hf. reflexivity.
Qed.

(** ** Reviews, events and comments of one PR *)

Lemma fetchReviews_empty (w : World) (pr : PullRequest) (url : string) :
  quiet (getPullRequestReviews w (html_url pr)) [] ->
  quiet (fetchReviews w pr url)
    match issue_events w (repoFullName_of url) (number pr) with
    | Resolved events =>
        map review_of_event (filter (fun e => String.eqb (Event.event e) "reviewed") events)
    | Rejected _ => []
    end.
Proof.
  intros Hq. unfold fetchReviews. apply try_catch_quiet.
  unfold reviews_then. eapply quiet_bind; [exact Hq |].
  apply getPullRequestEvents_quiet.
Qed.

Lemma fetchReviews_native (w : World) (pr : PullRequest) (h url : string)
    (r : Review.t) (l : list Review.t) :
  html_url pr = Some h -> Js.truthy (Some h) = true ->
  pr_reviews w h = Resolved (r :: l) ->
  quiet (fetchReviews w pr url) (r :: l).
Proof.
  intros Hh Ht Hr.
  destruct (getPullRequestReviews_quiet w (html_url pr)) as [l' [Hq [_ Hl]]].
  rewrite Hh in Hl. specialize (Hl h eq_refl Ht). rewrite Hr in Hl. subst l'.
  unfold fetchReviews. apply try_catch_quiet.
  unfold reviews_then. eapply quiet_bind; [exact Hq |]. apply quiet_ret.
Qed.

Lemma reviews_empty_quiet (w : World) (u : option string) (s : GithubService) :
  outcome (getPullRequestReviews w u s) = Ok [] -> quiet (getPullRequestReviews w u) [].
Proof.
  intros Ho. destruct (getPullRequestReviews_quiet w u) as [l [Hq _]].
  rewrite <- (quiet_inj _ _ _ s Hq Ho). exact Hq.
Qed.

(** X8. As soon as the reviews endpoint returns one review the issue events
    play no part: the records tested are the native reviews, whatever the
    events endpoint would answer, and when none of them is a recent
    approval by the user the PR gets no comment. *)
Theorem native_reviews_shadow_events
    (w : World) (pr : PullRequest) (h : string) (r : Review.t) (l : list Review.t) :
  html_url pr = Some h -> Js.truthy (Some h) = true ->
  pr_reviews w h = Resolved (r :: l) ->
  (forall url, quiet (fetchReviews w pr url) (r :: l))
  /\ (forall s fiveMinutesAgo i,
        (forall x, In x (r :: l) -> isRecentApproval parseISO s fiveMinutesAgo x = false) ->
        issued (processPR parseISO w fiveMinutesAgo i pr s) = []).
Proof.
  intros Hh Ht Hr. split.
  - intros url. exact (fetchReviews_native w pr h url r l Hh Ht Hr).
  - intros s fiveMinutesAgo i Hnone.
    destruct (processPR_run parseISO w fiveMinutesAgo i pr s) as [ps [Hrun Hps]].
    rewrite Hrun. cbn [issued].
    destruct Hps as [-> | [url [reviews [x [comments Hall]]]]]; [reflexivity |].
    exfalso. destruct Hall as [_ [_ [Hq [Hfind _]]]].
    pose proof (quiet_unique _ _ _ s Hq (fetchReviews_native w pr h url r l Hh Ht Hr)) as ->.
    apply find_some in Hfind. destruct Hfind as [Hin Htrue].
    rewrite (Hnone x Hin) in Htrue. discriminate.
Qed.

(** X9. The events and comments fetchers never throw: a rejected request gives
    the empty list.  So a PR without reviews whose events request fails is
    left without a comment. *)
Theorem events_and_comments_never_throw (w : World) :
  (forall repo n s, exists l, getPullRequestEvents w repo n s = mkRun s [] (Ok l))
  /\ (forall repo n s error, issue_events w repo n = Rejected error ->
        getPullRequestEvents w repo n s = mkRun s [] (Ok []))
  /\ (forall repo n s, exists l, getPullRequestComments w repo n s = mkRun s [] (Ok l))
  /\ (forall repo n s error, issue_comments w repo n = Rejected error ->
        getPullRequestComments w repo n s = mkRun s [] (Ok []))
  /\ (forall pr url error s fiveMinutesAgo i,
        repository_url pr = Some url ->
        outcome (getPullRequestReviews w (html_url pr) s) = Ok [] ->
        issue_events w (repoFullName_of url) (number pr) = Rejected error ->
        issued (processPR parseISO w fiveMinutesAgo i pr s) = []).
Proof.
  split; [| split; [| split; [| split]]].
  - intros repo n s. eexists. apply getPullRequestEvents_quiet.
  - intros repo n s error He. rewrite getPullRequestEvents_quiet, He. reflexivity.
  - intros repo n s. eexists. apply getPullRequestComments_quiet.
  - intros repo n s error He. rewrite getPullRequestComments_quiet, He. reflexivity.
  - intros pr url error s fiveMinutesAgo i Hurl Hrev Hev.
    destruct (processPR_run parseISO w fiveMinutesAgo i pr s) as [ps [Hrun Hps]].
    rewrite Hrun. cbn [issued].
    destruct Hps as [-> | [url' [reviews [x [comments Hall]]]]]; [reflexivity |].
    exfalso. destruct Hall as [_ [Hurl' [Hq [Hfind _]]]].
    rewrite Hurl in Hurl'. injection Hurl' as <-.
    pose proof (fetchReviews_empty w pr url (reviews_empty_quiet w _ s Hrev)) as Hq'.
    rewrite Hev in Hq'.
    pose proof (quiet_unique _ _ _ s Hq Hq') as ->.
    discriminate Hfind.
Qed.

(** ** From one cycle to the next *)

Lemma string_app_assoc (a b c : string) : ((a ++ b) ++ c = a ++ b ++ c)%string.
Proof.
  induction a as [| x a IH]; simpl; [reflexivity | rewrite IH; reflexivity].
Qed.

Lemma cycle_post_body (w : World) (s : GithubService) (p : CommentPost) :
  (forall j, unit_interval (math_random w j)) ->
  In p (issued (checkApprovedPRs parseISO w s)) ->
  exists u, In u memeUrls /\ post_body p = ("![Meme](" ++ u ++ ")")%string.
Proof.
  intros Hrand Hp.
  destruct (checkApprovedPRs_issued parseISO w s p Hp) as [repoPRs [j [pr [_ [_ [_ Hin]]]]]].
  destruct (processPR_run parseISO w (subMinutes (now w) 5) j pr
              (final (trackApprovedRepositories w s))) as [ps [Hrun Hps]].
  rewrite Hrun in Hin. cbn [issued] in Hin.
  destruct Hps as [-> | [url [reviews [r [comments Hall]]]]]; [destruct Hin |].
  destruct Hall as [_ [_ [_ [_ [_ [_ ->]]]]]].
  destruct Hin as [<- | []]. cbn [post_body].
  destruct (getRandomMeme_in_catalog (math_random w j) (Hrand j)) as [u [Hu Hcat]].
  exists u. split; [exact Hcat |]. rewrite Hu. reflexivity.
Qed.

(** X11. A comment the service has posted stops every later post on a PR that
    shows it: once the comments of a PR hold the body of any POST a cycle
    issued, processing that PR issues nothing, in any later cycle and
    whatever the reviews say. *)
Theorem posted_meme_suppresses_later_posts
    (w : World) (s : GithubService) (p : CommentPost)
    (w' : World) (s' : GithubService) (fiveMinutesAgo : Z) (i : nat)
    (pr : PullRequest) (url : string) (cs : list Comment) (c : Comment) (a b : string) :
  (forall j, unit_interval (math_random w j)) ->
  In p (issued (checkApprovedPRs parseISO w s)) ->
  repository_url pr = Some url ->
  issue_comments w' (repoFullName_of url) (number pr) = Resolved cs ->
  In c cs ->
  body c = (a ++ post_body p ++ b)%string ->
  issued (processPR parseISO w' fiveMinutesAgo i pr s') = [].
Proof.
  intros Hrand Hp Hurl Hcs Hc Hbody.
  destruct (cycle_post_body w s p Hrand Hp) as [u [Hu Hpost]].
  destruct (processPR_run parseISO w' fiveMinutesAgo i pr s') as [ps [Hrun Hps]].
  rewrite Hrun. cbn [issued].
  destruct Hps as [-> | [url' [reviews [r [comments Hall]]]]]; [reflexivity |].
  exfalso. destruct Hall as [_ [Hurl' [_ [_ [Hq [Hdup _]]]]]].
  rewrite Hurl in Hurl'. injection Hurl' as <-.
  pose proof (getPullRequestComments_quiet w' (repoFullName_of url) (number pr)) as Hq'.
  rewrite Hcs in Hq'. pose proof (quiet_unique _ _ _ s' Hq Hq') as ->.
  rewrite memeAlreadyPosted_false in Hdup.
  apply (Hdup c u Hc Hu).
  exists (a ++ "![Meme](")%string, (")" ++ b)%string.
  rewrite Hbody, Hpost, !string_app_assoc. reflexivity.
Qed.

Lemma cycle_final (w : World) (s : GithubService) :
  final (checkApprovedPRs parseISO w s) = final (trackApprovedRepositories w s).
Proof.
  pose proof (checkApprovedPRs_run parseISO w s) as Hrun.
  pose proof (trackApprovedRepositories_run w s) as Htrack.
  destruct (search_issues w) as [items | error].
  - destruct (outcome (getPullRequestsForRepos w _ _)); rewrite Hrun; reflexivity.
  - rewrite Hrun, Htrack. reflexivity.
Qed.

Lemma track_final (w : World) (s : GithubService) :
  username (final (trackApprovedRepositories w s)) = username s
  /\ orgs (final (trackApprovedRepositories w s)) = orgs s
  /\ (exists added,
         approvedRepos (final (trackApprovedRepositories w s)) = approvedRepos s ++ added)
  /\ (NoDup (approvedRepos s) ->
      NoDup (approvedRepos (final (trackApprovedRepositories w s)))).
Proof.
  unfold trackApprovedRepositories, bind.
  destruct (search_issues w) as [items | error]; simpl.
  - destruct (track_fold items (approvedRepos s)) as [_ [Hnd Hext]].
    repeat split; assumption.
  - repeat split; [exists []; symmetry; apply app_nil_r | trivial].
Qed.

(** X12. Over any number of cycles the service keeps its configuration, and the
    approved-repository set only grows at its end: the user name and the
    organisation list never change, the identifiers tracked so far stay in
    the set in their order with new ones appended, and no identifier is
    ever held twice. *)
Theorem run_cycles_grow_the_set (ws : list World) :
  forall s,
    username (fst (run_cycles parseISO ws s)) = username s
    /\ orgs (fst (run_cycles parseISO ws s)) = orgs s
    /\ (exists added,
           approvedRepos (fst (run_cycles parseISO ws s)) = approvedRepos s ++ added)
    /\ (NoDup (approvedRepos s) -> NoDup (approvedRepos (fst (run_cycles parseISO ws s)))).
Proof.
  induction ws as [| w rest IH]; intros s.
  - simpl. repeat split; [exists []; symmetry; apply app_nil_r | trivial].
  - cbn [run_cycles]. specialize (IH (final (checkApprovedPRs parseISO w s))).
    destruct (run_cycles parseISO rest (final (checkApprovedPRs parseISO w s)))
      as [s' ps]. cbn [fst] in *.
    rewrite cycle_final in IH.
    destruct (track_final w s) as [Hu [Ho [[added1 Ha] Hnd]]].
    destruct IH as [IHu [IHo [[added2 IHa] IHnd]]].
    split; [congruence |]. split; [congruence |]. split.
    + exists (added1 ++ added2). rewrite IHa, Ha. symmetry. apply app_assoc.
    + intros H. apply IHnd, Hnd, H.
Qed.

Lemma set_add_present (x : string) (s : list string) : In x s -> set_add x s = s.
Proof.
  intros Hin. unfold set_add.
  destruct (existsb (String.eqb x) s) eqn:Hex; [reflexivity |].
  assert (Htrue : existsb (String.eqb x) s = true).
  { apply existsb_exists. exists x. split; [exact Hin | apply String.eqb_refl]. }
  rewrite Hex in Htrue. discriminate.
Qed.

Lemma track_fold_absorbed (items : list PullRequest) (acc : list string) :
  (forall r, derived_from items r -> In r acc) ->
  fold_left
    (fun acc pr =>
       if Js.truthy (repository_url pr) then
         match repository_url pr with
         | Some u => set_add (repoFullName_of u) acc
         | None => acc
         end
       else acc)
    items acc = acc.
Proof.
  induction items as [| pr items IH]; intros Hall; [reflexivity |].
  cbn [fold_left].
  assert (Hrest : forall r, derived_from items r -> In r acc).
  { intros r Hr. apply Hall. apply derived_from_cons. right. exact Hr. }
  destruct (repository_url pr) as [u |] eqn:Hu.
  - destruct (Js.truthy (Some u)) eqn:Ht.
    + rewrite set_add_present; [exact (IH Hrest) |].
      apply Hall. apply derived_from_cons. left. exists u.
      repeat split; [exact Hu | apply truthy_Some; exact Ht].
    + exact (IH Hrest).
  - exact (IH Hrest).
Qed.

(** X13. Tracking is idempotent: a cycle whose search returns what the previous
    search returned leaves the approved-repository set exactly as it is. *)
Theorem trackApprovedRepositories_idempotent (w w' : World) (s : GithubService) :
  search_issues w' = search_issues w ->
  final (trackApprovedRepositories w' (final (trackApprovedRepositories w s)))
  = final (trackApprovedRepositories w s)
  /\ final (checkApprovedPRs parseISO w' (final (checkApprovedPRs parseISO w s)))
     = final (checkApprovedPRs parseISO w s).
Proof.
  intros Hsame.
  assert (Htrack : final (trackApprovedRepositories w'
                            (final (trackApprovedRepositories w s)))
                   = final (trackApprovedRepositories w s)).
  { unfold trackApprovedRepositories, bind. rewrite Hsame.
    destruct (search_issues w) as [items | error]; simpl; [| reflexivity].
    unfold with_approvedRepos. cbn [username orgs approvedRepos].
    rewrite track_fold_absorbed; [reflexivity |].
    intros r Hr. destruct (track_fold items (approvedRepos s)) as [Hin _].
    apply Hin. right. exact Hr. }
  split; [exact Htrack |].
  rewrite !cycle_final. exact Htrack.
Qed.

End FurtherCycleProperties.

(** ** The further properties on the sample cycles *)

Lemma repos_outside_orgs_never_fetched_witness :
  checkApprovedPRs Sample.parseISO
    (with_repo_pulls Sample.world_approved Sample.pulls_failing_outside_orgs)
    Sample.service
  = checkApprovedPRs Sample.parseISO Sample.world_approved Sample.service.
Proof.
  apply (repos_outside_orgs_never_fetched Sample.parseISO Sample.world_approved
           Sample.pulls_failing_outside_orgs Sample.service).
  intros r Hpass. unfold Sample.pulls_failing_outside_orgs. rewrite Hpass. reflexivity.
Defined.

Lemma cycle_throws_only_on_search_or_pulls_witness :
  checkApprovedPRs Sample.parseISO Sample.world_search_fails Sample.service
  = mkRun Sample.service [] (Throw Sample.server_error)
  /\ outcome (checkApprovedPRs Sample.parseISO Sample.world_approved Sample.service)
     = Ok tt.
Proof.
  split.
  - apply (cycle_throws_only_on_search_or_pulls Sample.parseISO
             Sample.world_search_fails Sample.service).
    reflexivity.
  - destruct (cycle_throws_only_on_search_or_pulls Sample.parseISO
                Sample.world_approved Sample.service) as [_ [Hiff _]].
    apply (Hiff _ eq_refl). intros r _ _. simpl.
    destruct (String.eqb r "orgA/repo1"); eexists; reflexivity.
Defined.

Lemma at_most_one_post_per_candidate_witness :
  (length (issued (checkApprovedPRs Sample.parseISO Sample.world_approved Sample.service))
   <= length [Sample.pr42])%nat.
Proof.
  apply (at_most_one_post_per_candidate Sample.parseISO Sample.world_approved
           Sample.service).
  reflexivity.
Defined.

Lemma no_orgs_no_posts_witness :
  issued (checkApprovedPRs Sample.parseISO Sample.world_approved
            Sample.service_without_orgs) = []
  /\ outcome (checkApprovedPRs Sample.parseISO Sample.world_approved
                Sample.service_without_orgs) = Ok tt.
Proof.
  destruct (no_orgs_no_posts Sample.parseISO Sample.world_approved
              Sample.service_without_orgs eq_refl) as [Hnone [Hok _]].
  split; [exact Hnone | exact (Hok _ eq_refl)].
Defined.

Lemma native_reviews_shadow_events_witness :
  quiet (fetchReviews Sample.world_commented Sample.pr42 Sample.repo1_url)
    [Sample.review "COMMENTED" "alice" "2024-05-01T11:59:00Z"]
  /\ issued (processPR Sample.parseISO Sample.world_commented
               (subMinutes Sample.noon 5) 0 Sample.pr42 Sample.service) = [].
Proof.
  destruct (native_reviews_shadow_events Sample.parseISO Sample.world_commented
              Sample.pr42 "https://github.com/orgA/repo1/pull/42"
              (Sample.review "COMMENTED" "alice" "2024-05-01T11:59:00Z") []
              eq_refl eq_refl eq_refl) as [Hnative Hnone].
  split; [apply Hnative |].
  apply Hnone. intros x [<- | []]. reflexivity.
Defined.

Lemma events_and_comments_never_throw_witness :
  getPullRequestEvents Sample.world_events_fail "orgA/repo1" 42 Sample.service
  = mkRun Sample.service [] (Ok [])
  /\ issued (processPR Sample.parseISO Sample.world_events_fail
               (subMinutes Sample.noon 5) 0 Sample.pr42 Sample.service) = [].
Proof.
  destruct (events_and_comments_never_throw Sample.parseISO Sample.world_events_fail)
    as [_ [Hevents [_ [_ Hnone]]]].
  split.
  - apply (Hevents _ _ _ Sample.server_error). reflexivity.
  - apply (Hnone Sample.pr42 Sample.repo1_url Sample.server_error); reflexivity.
Defined.

Lemma posted_meme_suppresses_later_posts_witness :
  issued (processPR Sample.parseISO Sample.world_after_post
            (subMinutes Sample.noon 5) 0 Sample.pr42
            (final (checkApprovedPRs Sample.parseISO Sample.world_earlier Sample.service)))
  = [].
Proof.
  apply (posted_meme_suppresses_later_posts Sample.parseISO
           Sample.world_earlier Sample.service Sample.meme_post
           Sample.world_after_post _ _ 0%nat Sample.pr42 Sample.repo1_url
           [ {| body := "![Meme](https://i.imgflip.com/8qwq96.jpg)" |} ]
           {| body := "![Meme](https://i.imgflip.com/8qwq96.jpg)" |} "" "").
  - intros j. vm_compute. split; [discriminate | reflexivity].
  - vm_compute. left. reflexivity.
  - reflexivity.
  - reflexivity.
  - left. reflexivity.
  - reflexivity.
Defined.

(** At the same window, with the same approval, the PR is posted to as long
    as its comments do not show the meme. *)
Example same_pr_without_the_comment_is_posted :
  issued (processPR Sample.parseISO Sample.world_approved
            (subMinutes Sample.noon 5) 0 Sample.pr42
            (final (checkApprovedPRs Sample.parseISO Sample.world_earlier Sample.service)))
  = [Sample.meme_post].
Proof. vm_compute. reflexivity. Qed.

Lemma run_cycles_grow_the_set_witness :
  username (fst (run_cycles Sample.parseISO [Sample.world_approved; Sample.next_world]
                   Sample.service)) = Some "alice"
  /\ NoDup (approvedRepos
              (fst (run_cycles Sample.parseISO [Sample.world_approved; Sample.next_world]
                      Sample.service))).
Proof.
  destruct (run_cycles_grow_the_set Sample.parseISO
              [Sample.world_approved; Sample.next_world] Sample.service)
    as [Huser [_ [_ Hnodup]]].
  split; [exact Huser | apply Hnodup; constructor].
Defined.

Lemma trackApprovedRepositories_idempotent_witness :
  final (trackApprovedRepositories Sample.world_duplicate
           (final (trackApprovedRepositories Sample.world_approved Sample.service)))
  = final (trackApprovedRepositories Sample.world_approved Sample.service).
Proof.
  apply (trackApprovedRepositories_idempotent Sample.parseISO
           Sample.world_approved Sample.world_duplicate Sample.service).
  reflexivity.
Defined.
